(** * NSSaDS: the lab4 UDP multiservice host and the lab3 chunk-size policy

    A shallow embedding of the Go sources

      - lab4/internal/domain/service.go
      - lab4/internal/infrastructure/network/service_registry.go
      - lab4/internal/infrastructure/network/thread_pool.go
      - lab4/internal/infrastructure/network/udp_server.go
      - lab4/internal/usecase/services.go
      - lab3/internal/domain/command.go and the two chunk-size functions
        of the lab3 multiplexers

    Go integers are [Z] with their wrap-around written out, [float64] is
    the binary64 type [float] of the kernel, Go strings and byte slices
    are [string] (a Go string is a byte sequence and the conversions
    [string(b)] and [[]byte(s)] copy the bytes unchanged), Go maps are
    [gmap].  Goroutines are modelled by step relations whose steps are the
    blocks of code a goroutine runs between two blocking points. *)

From Stdlib Require Import ZArith Floats Ascii.
From stdpp Require Import gmap strings list pretty.

Open Scope Z_scope.

(** ** Machine integers *)

Module GoInt.

(** Two's-complement interpretation of [z] on [w] bits. *)
Definition wrap (w : Z) (z : Z) : Z :=
  (z + 2 ^ (w - 1)) mod 2 ^ w - 2 ^ (w - 1).

Definition wrap32 : Z -> Z := wrap 32.
Definition wrap64 : Z -> Z := wrap 64.

Definition min_int64 : Z := - 2 ^ 63.
Definition max_int64 : Z := 2 ^ 63 - 1.

Definition in_int64 (z : Z) : Prop := min_int64 <= z <= max_int64.

(** [atomic.AddInt32(&x, d)] and [atomic.AddInt64(&x, d)]. *)
Definition AddInt32 (x d : Z) : Z := wrap32 (x + d).
Definition AddInt64 (x d : Z) : Z := wrap64 (x + d).

(** Go's [/] on integers truncates toward zero. *)
Definition div64 (a b : Z) : Z := wrap64 (Z.quot a b).
Definition mul64 (a b : Z) : Z := wrap64 (a * b).
Definition add64 (a b : Z) : Z := wrap64 (a + b).

(** [float64(i)] for an integer [i]; exact below 2^53 in magnitude. *)
Definition float64_of_Z (z : Z) : float :=
  if z <? 0
  then PrimFloat.opp (PrimFloat.of_uint63 (Uint63.of_Z (- z)))
  else PrimFloat.of_uint63 (Uint63.of_Z z).

End GoInt.

(** ** lab4/internal/domain/service.go *)

Module Domain.

Definition ServiceType := string.

Definition EchoService : ServiceType := "echo".
Definition TimeService : ServiceType := "time".
Definition FileService : ServiceType := "file".
Definition CalcService : ServiceType := "calc".
Definition StatsService : ServiceType := "stats".

(** A Go [error] value, identified by its message. *)
Definition error := string.

(** [time.Time] as Unix nanoseconds, [time.Duration] as nanoseconds. *)
Definition Time := Z.
Definition Duration := Z.

Definition Millisecond : Duration := 1000000.
Definition Second : Duration := 1000000000.

(** [t.Unix()] *)
Definition Unix (t : Time) : Z := t `div` Second.

Record Request := mkRequest {
  req_ID : string;
  req_Service : ServiceType;
  req_Command : string;
  req_Data : string;
  req_ClientAddr : string;
  req_Timestamp : Time
}.

Record Response := mkResponse {
  resp_ID : string;
  resp_Service : ServiceType;
  resp_Data : string;
  resp_Error : option error;
  resp_Timestamp : Time
}.

Record PoolStats := mkPoolStats {
  ActiveWorkers : Z;
  QueuedTasks : Z;
  CompletedTasks : Z;
  MinWorkers : Z;
  MaxWorkers : Z;
  CurrentWorkers : Z
}.

Record ServiceStats := mkServiceStats {
  RequestsReceived : Z;
  RequestsProcessed : Z;
  Errors : Z;
  AvgResponseTime : Duration;
  LastRequest : Time
}.

(** The zero value [&domain.ServiceStats{}]. *)
Definition ServiceStats_zero : ServiceStats := mkServiceStats 0 0 0 0 0.

Record ThreadPoolConfig := mkThreadPoolConfig {
  cfg_MinWorkers : Z;
  cfg_MaxWorkers : Z;
  cfg_QueueSize : Z;
  cfg_WorkerTimeout : Duration;
  cfg_ExpandThreshold : float
}.

Definition ErrQueueFull : error := "task queue is full".
Definition ErrServiceNotFound : error := "service not found".
Definition ErrInvalidRequest : error := "invalid request".
Definition ErrServiceDisabled : error := "service is disabled".
Definition ErrServiceExists : error := "service already exists".
Definition ErrPortInUse : error := "port already in use".

(** The [Service] interface.  A handler reads the clock, and the stats
    service reads the host's ledger through [server.GetStats()], so both
    are inputs of [HandleRequest]; the second component of the result is
    the Go-level error. *)
Record Service := mkService {
  Name : ServiceType;
  Port : Z;
  HandleRequest :
    gmap ServiceType ServiceStats -> Time -> Request -> Response * option error
}.

End Domain.

(** ** lab4/internal/infrastructure/network/service_registry.go *)

Module Registry.
Import Domain.

Record ServiceRegistry := mkRegistry {
  services : gmap ServiceType Service;
  ports : gmap Z ServiceType
}.

Definition NewServiceRegistry : ServiceRegistry := mkRegistry ∅ ∅.

(** The body runs with [sr.mutex] held from entry to return, so one call
    is one transition of the registry. *)
Definition RegisterService (sr : ServiceRegistry) (service : Service)
  : ServiceRegistry * option error :=
  let serviceType := Name service in
  let port := Port service in
  match services sr !! serviceType with
  | Some _ => (sr, Some ErrServiceExists)
  | None =>
    match ports sr !! port with
    | Some _ => (sr, Some ErrPortInUse)
    | None =>
      (mkRegistry (<[serviceType := service]> (services sr))
                  (<[port := serviceType]> (ports sr)), None)
    end
  end.

Definition GetService (sr : ServiceRegistry) (serviceType : ServiceType)
  : option Service * option error :=
  match services sr !! serviceType with
  | None => (None, Some ErrServiceNotFound)
  | Some service => (Some service, None)
  end.

Definition GetServicePort (sr : ServiceRegistry) (serviceType : ServiceType)
  : Z * option error :=
  match services sr !! serviceType with
  | None => (0, Some ErrServiceNotFound)
  | Some service => (Port service, None)
  end.

Definition GetServiceByPort (sr : ServiceRegistry) (port : Z)
  : option Service * option error :=
  match ports sr !! port with
  | None => (None, Some ErrServiceNotFound)
  | Some serviceType => (services sr !! serviceType, None)
  end.

(** A run of the registry: the calls of [RegisterService] in order, from
    a given registry.  [register_all] returns the final registry and the
    services whose registration returned a nil error, oldest first. *)
Fixpoint register_all (sr : ServiceRegistry) (calls : list Service)
  : ServiceRegistry * list Service :=
  match calls with
  | [] => (sr, [])
  | service :: rest =>
    match RegisterService sr service with
    | (sr', None) =>
      let '(sr'', ok) := register_all sr' rest in (sr'', service :: ok)
    | (sr', Some _) => register_all sr' rest
    end
  end.

Definition registered (calls : list Service) : list Service :=
  snd (register_all NewServiceRegistry calls).

End Registry.

(** ** lab4/internal/infrastructure/network/thread_pool.go *)

Module ThreadPool.
Import Domain GoInt.

Section Pool.

(** The submitted closures [func()]. *)
Context {Task : Type}.

(** A worker goroutine of [addWorker] is either blocked in its
    [select] or inside [task()]. *)
Inductive Worker :=
| Waiting
| Running (task : Task).

(** The struct, with the buffered channel [taskQueue] as the list of
    its pending elements (capacity [queueSize]), the channel
    [workerQueue] (capacity [maxWorkers], never received from) as the
    number of sentinels it holds, the live worker goroutines, and
    whether the manager goroutine is stuck in its send. *)
Record ThreadPool := mkPool {
  minWorkers : Z;
  maxWorkers : Z;
  queueSize : Z;
  workerTimeout : Duration;
  expandThreshold : float;
  taskQueue : list Task;
  workerQueue : Z;
  managerBlocked : bool;
  workers : list Worker;
  activeWorkers : Z;
  currentWorkers : Z;
  completedTasks : Z;
  queuedTasks : Z
}.

Definition NewThreadPool (config : ThreadPoolConfig) : ThreadPool :=
  {| minWorkers := cfg_MinWorkers config;
     maxWorkers := cfg_MaxWorkers config;
     queueSize := cfg_QueueSize config;
     workerTimeout := cfg_WorkerTimeout config;
     expandThreshold := cfg_ExpandThreshold config;
     taskQueue := [];
     workerQueue := 0;
     managerBlocked := false;
     workers := [];
     activeWorkers := 0;
     currentWorkers := 0;
     completedTasks := 0;
     queuedTasks := 0 |}.

Definition set_counters (tp : ThreadPool)
    (q : list Task) (ws : list Worker) (active current completed queued : Z)
  : ThreadPool :=
  {| minWorkers := minWorkers tp;
     maxWorkers := maxWorkers tp;
     queueSize := queueSize tp;
     workerTimeout := workerTimeout tp;
     expandThreshold := expandThreshold tp;
     taskQueue := q;
     workerQueue := workerQueue tp;
     managerBlocked := managerBlocked tp;
     workers := ws;
     activeWorkers := active;
     currentWorkers := current;
     completedTasks := completed;
     queuedTasks := queued |}.

(** [addWorker]: the guard, the increment and the spawned goroutine,
    which starts blocked in its [select]. *)
Definition addWorker (tp : ThreadPool) : ThreadPool :=
  if wrap32 (maxWorkers tp) <=? currentWorkers tp then tp
  else set_counters tp (taskQueue tp) (workers tp ++ [Waiting])
         (activeWorkers tp) (AddInt32 (currentWorkers tp) 1)
         (completedTasks tp) (queuedTasks tp).

(** [Start]: [for i := 0; i < tp.minWorkers; i++ { tp.addWorker() }],
    then the manager goroutine is started. *)
Definition Start (tp : ThreadPool) : ThreadPool :=
  Nat.iter (Z.to_nat (minWorkers tp)) addWorker tp.

Definition checkAndExpand (tp : ThreadPool) : ThreadPool :=
  let current := currentWorkers tp in
  let queued := queuedTasks tp in
  if wrap32 (maxWorkers tp) <=? current then tp
  else if PrimFloat.ltb (expandThreshold tp)
            (PrimFloat.div (float64_of_Z queued) (float64_of_Z (queueSize tp)))
       then addWorker tp
       else tp.

(** [Submit] before [Stop]: the context is not done, so the [select]
    either sends on [taskQueue] (there is room in the buffer) or takes
    its [default] branch.  The queue is buffered ([queueSize >= 1]);
    a send into a buffer with room never blocks. *)
Definition Submit (tp : ThreadPool) (task : Task) : ThreadPool * option error :=
  if Z.of_nat (length (taskQueue tp)) <? queueSize tp
  then (checkAndExpand
          (set_counters tp (taskQueue tp ++ [task]) (workers tp)
             (activeWorkers tp) (currentWorkers tp)
             (completedTasks tp) (AddInt32 (queuedTasks tp) 1)), None)
  else (tp, Some ErrQueueFull).

Definition Stats (tp : ThreadPool) : PoolStats :=
  {| ActiveWorkers := activeWorkers tp;
     QueuedTasks := queuedTasks tp;
     CompletedTasks := completedTasks tp;
     MinWorkers := minWorkers tp;
     MaxWorkers := maxWorkers tp;
     CurrentWorkers := currentWorkers tp |}.

(** The worker loop of [addWorker], one function per branch.  Worker
    [i] receives the head of [taskQueue] and enters [task()]. *)
Definition worker_receive (i : nat) (tp : ThreadPool) : option ThreadPool :=
  match workers tp !! i, taskQueue tp with
  | Some Waiting, task :: rest =>
    Some (set_counters tp rest (<[i := Running task]> (workers tp))
            (AddInt32 (activeWorkers tp) 1) (currentWorkers tp)
            (completedTasks tp) (queuedTasks tp))
  | _, _ => None
  end.

(** [task()] returns: the three updates after it. *)
Definition worker_finish (i : nat) (tp : ThreadPool) : option ThreadPool :=
  match workers tp !! i with
  | Some (Running _) =>
    Some (set_counters tp (taskQueue tp) (<[i := Waiting]> (workers tp))
            (AddInt32 (activeWorkers tp) (-1)) (currentWorkers tp)
            (AddInt64 (completedTasks tp) 1) (AddInt32 (queuedTasks tp) (-1)))
  | _ => None
  end.

(** [<-time.After(tp.workerTimeout)]: the worker returns when the
    counter is above the floor (the deferred decrement runs), and goes
    round the loop otherwise. *)
Definition worker_timeout (i : nat) (tp : ThreadPool) : option ThreadPool :=
  match workers tp !! i with
  | Some Waiting =>
    if wrap32 (minWorkers tp) <? currentWorkers tp
    then Some (set_counters tp (taskQueue tp) (delete i (workers tp))
                 (activeWorkers tp) (AddInt32 (currentWorkers tp) (-1))
                 (completedTasks tp) (queuedTasks tp))
    else Some tp
  | _ => None
  end.

(** [optimize], run by the manager on each tick.  The send on
    [workerQueue] blocks for good once the buffer holds [maxWorkers]
    sentinels: no goroutine receives from that channel. *)
Definition optimize (tp : ThreadPool) : ThreadPool :=
  if managerBlocked tp then tp
  else
    let current := currentWorkers tp in
    let active := activeWorkers tp in
    let queued := queuedTasks tp in
    if (wrap32 (minWorkers tp) <? current)
       && (active <? Z.quot current 2)
       && (queued =? 0)
    then
      let full := maxWorkers tp <=? workerQueue tp in
      {| minWorkers := minWorkers tp;
         maxWorkers := maxWorkers tp;
         queueSize := queueSize tp;
         workerTimeout := workerTimeout tp;
         expandThreshold := expandThreshold tp;
         taskQueue := taskQueue tp;
         workerQueue := if full then workerQueue tp else workerQueue tp + 1;
         managerBlocked := full;
         workers := workers tp;
         activeWorkers := active;
         currentWorkers := AddInt32 current (-1);
         completedTasks := completedTasks tp;
         queuedTasks := queued |}
    else tp.

(** The pool as a transition system: what the callers of [Submit],
    the workers and the manager can do, in any order. *)
Inductive Step :=
| DoSubmit (task : Task)
| DoReceive (i : nat)
| DoFinish (i : nat)
| DoTimeout (i : nat)
| DoOptimize.

Definition step (tp : ThreadPool) (s : Step) : option ThreadPool :=
  match s with
  | DoSubmit task => Some (fst (Submit tp task))
  | DoReceive i => worker_receive i tp
  | DoFinish i => worker_finish i tp
  | DoTimeout i => worker_timeout i tp
  | DoOptimize => Some (optimize tp)
  end.

Fixpoint run (tp : ThreadPool) (ss : list Step) : option ThreadPool :=
  match ss with
  | [] => Some tp
  | s :: rest =>
    match step tp s with
    | Some tp' => run tp' rest
    | None => None
    end
  end.

(** The states of a started pool. *)
Definition reachable (config : ThreadPoolConfig) (tp : ThreadPool) : Prop :=
  exists ss, run (Start (NewThreadPool config)) ss = Some tp.

(** P2 of the specification, on a snapshot. *)
Definition pool_bounds (queue_capacity : Z) (s : PoolStats) : Prop :=
  MinWorkers s <= CurrentWorkers s <= MaxWorkers s
  /\ 0 <= ActiveWorkers s <= CurrentWorkers s
  /\ 0 <= QueuedTasks s <= queue_capacity.

End Pool.

Arguments ThreadPool : clear implicits.
Arguments Step : clear implicits.
Arguments Worker : clear implicits.

(** What an observer reads: the snapshot of [Stats] and the capacity of
    the queue. *)
Definition observe (tp : ThreadPool nat) : PoolStats * Z :=
  (Stats tp, queueSize tp).

(** [config.NewConfig().ThreadPool] *)
Definition default_config : ThreadPoolConfig :=
  {| cfg_MinWorkers := 5;
     cfg_MaxWorkers := 50;
     cfg_QueueSize := 1000;
     cfg_WorkerTimeout := 30 * Second;
     cfg_ExpandThreshold := 0x1.999999999999ap-1%float |}.

(** A small configuration: one worker at least, two at most, a queue of
    one task, expansion above half of the queue. *)
Definition small_config : ThreadPoolConfig :=
  {| cfg_MinWorkers := 1;
     cfg_MaxWorkers := 2;
     cfg_QueueSize := 1;
     cfg_WorkerTimeout := 30 * Second;
     cfg_ExpandThreshold := 0.5%float |}.

(** One task goes through the pool and the manager ticks; then three
    tasks are submitted and each is picked up by a different worker. *)
Definition small_trace : list (Step nat) :=
  [ DoSubmit 1%nat; DoReceive 0%nat; DoFinish 0%nat; DoOptimize;
    DoSubmit 2%nat; DoReceive 0%nat;
    DoSubmit 3%nat; DoReceive 1%nat;
    DoSubmit 4%nat; DoReceive 2%nat ].

(** The same scenario under the default configuration: 801 tasks queue
    up (the 801st crosses the 0.8 threshold and a sixth worker starts),
    worker 0 runs them all, the manager ticks, and six tasks are then
    picked up by the six workers. *)
Definition default_trace : list (Step nat) :=
  map DoSubmit (seq 0 801)
  ++ concat (replicate 801 [DoReceive 0%nat; DoFinish 0%nat])
  ++ [DoOptimize]
  ++ concat (map (fun i => [DoSubmit i; DoReceive i]) (seq 0 6)).

(** Under the default configuration again: the five workers each take
    a task, and a thousand more tasks fill the queue. *)
Definition busy_trace : list (Step nat) :=
  concat (map (fun i => [DoSubmit i; DoReceive i]) (seq 0 5))
  ++ map DoSubmit (seq 5 1000).

End ThreadPool.

(** ** Go standard library used by the services

    [strings.Fields] is written out.  The conversions between text and
    [float64], JSON and the formatting of instants belong to the Go
    standard library, not to this repository: they are parameters of the
    model, one class per package. *)

Module GoStrings.

Definition byte_at (s : string) (i : nat) : Z :=
  match String.get i s with
  | Some c => Z.of_N (Ascii.N_of_ascii c)
  | None => -1
  end.

(** Width in bytes of the white-space rune that begins [s], or 0 when
    [s] does not begin with one.  White space is [unicode.IsSpace]:
    U+0009..U+000D, U+0020, U+0085, U+00A0, U+1680, U+2000..U+200A,
    U+2028, U+2029, U+202F, U+205F and U+3000 in their UTF-8 encodings.
    A lead byte is never a continuation byte, so the decoder of
    [strings.Fields] always begins a rune where one of these encodings
    begins. *)
Definition space_width (s : string) : nat :=
  let b0 := byte_at s 0 in
  let b1 := byte_at s 1 in
  let b2 := byte_at s 2 in
  if ((9 <=? b0) && (b0 <=? 13)) || (b0 =? 32) then 1%nat
  else if (b0 =? 194) && ((b1 =? 133) || (b1 =? 160)) then 2%nat
  else if (b0 =? 225) && (b1 =? 154) && (b2 =? 128) then 3%nat
  else if (b0 =? 226) && (b1 =? 128)
          && (((128 <=? b2) && (b2 <=? 138))
              || (b2 =? 168) || (b2 =? 169) || (b2 =? 175)) then 3%nat
  else if (b0 =? 226) && (b1 =? 129) && (b2 =? 159) then 3%nat
  else if (b0 =? 227) && (b1 =? 128) && (b2 =? 128) then 3%nat
  else 0%nat.

Definition flush (cur : string) : list string :=
  match cur with
  | EmptyString => []
  | _ => [cur]
  end.

(** The scan of [strings.Fields]: [skip] counts the bytes still to pass
    of the white-space rune being read, [cur] is the field being read. *)
Fixpoint fields_from (s : string) (skip : nat) (cur : string) : list string :=
  match s with
  | EmptyString => flush cur
  | String c rest =>
    match skip with
    | S k => fields_from rest k cur
    | O =>
      match space_width s with
      | O => fields_from rest 0 (cur +:+ String c EmptyString)
      | S k => flush cur ++ fields_from rest k EmptyString
      end
    end
  end.

Definition Fields (s : string) : list string := fields_from s 0 EmptyString.

End GoStrings.

Module GoLib.
Import Domain.

(** [strconv.ParseFloat(s, 64)], [Some f] when the error is nil, and
    [fmt.Sprintf("%.2f", f)]. *)
Class FloatText := {
  ParseFloat : string -> option float;
  Sprintf_2f : float -> string
}.

(** The values the host and the stats service hand to [encoding/json]. *)
#[warnings="-register-all"]
Inductive JSON :=
| JStr (s : string)
| JInt (z : Z)
| JObj (fields : gmap string JSON).

(** The anonymous struct of [parseRequest]; a field the body lacks keeps
    its zero value, the empty string. *)
Record Envelope := mkEnvelope {
  env_ID : string;
  env_Command : string;
  env_Data : string
}.

(** [json.Unmarshal(data, &req)] into that struct, [Some req] when the
    error is nil. *)
Class JsonDecoder := {
  Unmarshal : string -> option Envelope
}.

(** [json.MarshalIndent(v, "", "  ")]. *)
Class JsonEncoder := {
  MarshalIndent : JSON -> string * option error
}.

(** [d.String()] of a [time.Duration] and [t.Format(time.RFC3339)]. *)
Class TimeText := {
  Duration_String : Duration -> string;
  Format_RFC3339 : Time -> string
}.

End GoLib.

(** ** lab4/internal/usecase/services.go *)

Module Usecase.
Import Domain GoLib GoStrings.

Definition NewEchoService_HandleRequest (now : Time) (req : Request)
  : Response * option error :=
  (mkResponse (req_ID req) EchoService ("ECHO: " +:+ req_Data req) None now, None).

Definition NewEchoService (port : Z) : Service :=
  mkService EchoService port (fun _ => NewEchoService_HandleRequest).

Section Calc.
Context `{FloatText}.

(** [CalcService.HandleRequest].  [parts[0]], [parts[1]] and
    [parts[2]] are read after the length test, so the indices are in
    range. *)
Definition CalcService_HandleRequest (now : Time) (req : Request)
  : Response * option error :=
  let parts := Fields (req_Data req) in
  if (length parts <? 3)%nat then
    (mkResponse (req_ID req) CalcService ""
       (Some "usage: <num1> <op> <num2>") now, None)
  else
    match ParseFloat (parts !!! 0%nat), ParseFloat (parts !!! 2%nat) with
    | Some a, Some b =>
      let op := parts !!! 1%nat in
      let answer (result : float) :=
        (mkResponse (req_ID req) CalcService
           (Sprintf_2f a +:+ " " +:+ op +:+ " " +:+ Sprintf_2f b
            +:+ " = " +:+ Sprintf_2f result)
           None now, None) in
      if String.eqb op "+" then answer (a + b)%float
      else if String.eqb op "-" then answer (a - b)%float
      else if String.eqb op "*" then answer (a * b)%float
      else if String.eqb op "/" then
        if PrimFloat.eqb b 0%float then
          (mkResponse (req_ID req) CalcService ""
             (Some "division by zero") now, None)
        else answer (a / b)%float
      else
        (mkResponse (req_ID req) CalcService ""
           (Some ("unsupported operator: " +:+ op)) now, None)
    | _, _ =>
      (mkResponse (req_ID req) CalcService ""
         (Some "invalid numbers") now, None)
    end.

Definition NewCalcService (port : Z) : Service :=
  mkService CalcService port (fun _ => CalcService_HandleRequest).

(** The operators of the specification and the operation each names. *)
Definition operators : list string := ["+"; "-"; "*"; "/"].

Definition arithmetic (op : string) (a b : float) : float :=
  if String.eqb op "+" then (a + b)%float
  else if String.eqb op "-" then (a - b)%float
  else if String.eqb op "*" then (a * b)%float
  else (a / b)%float.

(** The two replies of the calculator. *)
Definition calc_error (now : Time) (req : Request) (text : error)
  : Response * option error :=
  (mkResponse (req_ID req) CalcService "" (Some text) now, None).

Definition calc_answer (now : Time) (req : Request) (op : string) (a b : float)
  : Response * option error :=
  (mkResponse (req_ID req) CalcService
     (Sprintf_2f a +:+ " " +:+ op +:+ " " +:+ Sprintf_2f b
      +:+ " = " +:+ Sprintf_2f (arithmetic op a b))
     None now, None).

End Calc.

Section Stats.
Context `{JsonEncoder} `{TimeText}.

Definition stats_fields (serviceStats : ServiceStats) : gmap string JSON :=
  {[ "requests_received" := JInt (RequestsReceived serviceStats);
     "requests_processed" := JInt (RequestsProcessed serviceStats);
     "errors" := JInt (Errors serviceStats);
     "avg_response_time" := JStr (Duration_String (AvgResponseTime serviceStats));
     "last_request" := JStr (Format_RFC3339 (LastRequest serviceStats)) ]}.

Definition marshalled (now : Time) (response : JSON) : Response * option error :=
  match MarshalIndent response with
  | (_, Some err) =>
    (mkResponse "" StatsService ""
       (Some ("failed to marshal stats: " +:+ err)) now, None)
  | (data, None) => (mkResponse "" StatsService data None now, None)
  end.

Definition handleAllStats (stats : gmap ServiceType ServiceStats) (now : Time)
  : Response * option error :=
  marshalled now (JObj ((fun st => JObj (stats_fields st)) <$> stats)).

Definition handleServiceStats (stats : gmap ServiceType ServiceStats)
    (data : string) (now : Time) : Response * option error :=
  let serviceType : ServiceType := data in
  match stats !! serviceType with
  | None =>
    (mkResponse "" StatsService ""
       (Some ("service " +:+ serviceType +:+ " not found")) now, None)
  | Some serviceStats =>
    marshalled now
      (JObj (<["service" := JStr serviceType]> (stats_fields serviceStats)))
  end.

Definition handlePoolStats (now : Time) : Response * option error :=
  (mkResponse "" StatsService
     "Pool stats not implemented in this version" None now, None).

Definition help : string :=
"Stats Service Commands:
ALL - Show statistics for all services
SERVICE <service_name> - Show statistics for specific service
POOL - Show thread pool statistics
HELP - Show this help message

Available services: echo, time, calc, stats".

Definition handleHelp (now : Time) : Response * option error :=
  (mkResponse "" StatsService help None now, None).

(** [StatsService.HandleRequest]; [stats] is [s.server.GetStats()]. *)
Definition StatsService_HandleRequest
    (stats : gmap ServiceType ServiceStats) (now : Time) (req : Request)
  : Response * option error :=
  let command := req_Command req in
  if String.eqb command "ALL" then handleAllStats stats now
  else if String.eqb command "SERVICE" then handleServiceStats stats (req_Data req) now
  else if String.eqb command "POOL" then handlePoolStats now
  else if String.eqb command "HELP" then handleHelp now
  else
    (mkResponse (req_ID req) StatsService ""
       (Some ("unknown command: " +:+ command)) now, None).

Definition NewStatsService (port : Z) : Service :=
  mkService StatsService port StatsService_HandleRequest.

End Stats.

End Usecase.

(** ** lab4/internal/infrastructure/network/udp_server.go *)

Module UDPServer.
Import Domain GoInt GoLib.

(** What a worker reads from its environment while it handles one
    datagram: [startTime], the instants read by [parseRequest], by the
    handler and by [processRequest], [time.Since(startTime)], and the
    identifier [uuid.New().String()] would return. *)
Record Readings := mkReadings {
  startTime : Time;
  parseTime : Time;
  handlerTime : Time;
  wrapTime : Time;
  errorTime : Time;
  responseTime : Duration;
  uuid : string
}.

(** A datagram written to a client, by [sendResponse] or by [sendError],
    as the JSON object handed to [json.Marshal]. *)
Inductive Written :=
| BySendResponse (clientAddr : string) (body : gmap string JSON)
| BySendError (clientAddr : string) (body : gmap string JSON).

(** [updateStats]: the update runs under [statsMutex] when the record
    exists.  [None] is a panic of the closure. *)
Definition updateStats (stats : gmap ServiceType ServiceStats)
    (serviceType : ServiceType)
    (updateFunc : ServiceStats -> option ServiceStats)
  : option (gmap ServiceType ServiceStats) :=
  match stats !! serviceType with
  | Some st =>
    match updateFunc st with
    | Some st' => Some (<[serviceType := st']> stats)
    | None => None
    end
  | None => Some stats
  end.

(** [atomic.AddInt64(&s.stats[name].Errors, 1)]; [None] is the nil
    dereference when the tag has no record. *)
Definition addError (stats : gmap ServiceType ServiceStats)
    (serviceType : ServiceType) : option (gmap ServiceType ServiceStats) :=
  match stats !! serviceType with
  | Some st =>
    Some (<[serviceType :=
              mkServiceStats (RequestsReceived st) (RequestsProcessed st)
                (AddInt64 (Errors st) 1) (AvgResponseTime st) (LastRequest st)]>
            stats)
  | None => None
  end.

(** The first closure of [handleRequest]. *)
Definition count_received (startTime : Time) (st : ServiceStats)
  : option ServiceStats :=
  Some (mkServiceStats (wrap64 (RequestsReceived st + 1)) (RequestsProcessed st)
          (Errors st) (AvgResponseTime st) startTime).

(** The second closure of [handleRequest]:
    [stats.RequestsProcessed++] and then
    [(Avg*Duration(Processed-1) + responseTime) / Duration(Processed)]
    on [int64]; an integer division by zero panics. *)
Definition count_processed (responseTime : Duration) (st : ServiceStats)
  : option ServiceStats :=
  let processed := wrap64 (RequestsProcessed st + 1) in
  if processed =? 0 then None
  else
    Some (mkServiceStats (RequestsReceived st) processed (Errors st)
            (div64 (add64 (mul64 (AvgResponseTime st) (wrap64 (processed - 1)))
                          responseTime)
                   processed)
            (LastRequest st)).

(** The record of one tag after handling requests with the given
    response times, oldest first. *)
Fixpoint after_latencies (latencies : list Duration) (st : ServiceStats)
  : option ServiceStats :=
  match latencies with
  | [] => Some st
  | l :: rest =>
    match count_processed l st with
    | Some st' => after_latencies rest st'
    | None => None
    end
  end.



Definition processRequest (service : Service)
    (stats : gmap ServiceType ServiceStats) (r : Readings) (request : Request)
  : Response :=
  match HandleRequest service stats (handlerTime r) request with
  | (_, Some err) =>
    mkResponse (req_ID request) (Name service) "" (Some err) (wrapTime r)
  | (response, None) => response
  end.

(** [sendResponse], up to [json.Marshal]: the object it builds. *)
Definition sendResponse (response : Response) : gmap string JSON :=
  let responseData :=
    match resp_Error response with
    | Some err => "ERROR: " +:+ err
    | None => resp_Data response
    end in
  let responseJSON : gmap string JSON :=
    {[ "id" := JStr (resp_ID response);
       "service" := JStr (resp_Service response);
       "data" := JStr responseData;
       "timestamp" := JInt (Unix (resp_Timestamp response)) ]} in
  match resp_Error response with
  | Some err => <["error" := JStr err]> responseJSON
  | None => responseJSON
  end.

Definition sendError (requestID : string) (serviceType : ServiceType)
    (err : error) (now : Time) : gmap string JSON :=
  {[ "id" := JStr requestID;
     "service" := JStr serviceType;
     "error" := JStr err;
     "timestamp" := JInt (Unix now) ]}.

(** The reading of "data absent or empty" on a reply. *)
Definition data_absent_or_empty (body : gmap string JSON) : Prop :=
  body !! "data" = None \/ body !! "data" = Some (JStr "").

Definition is_response (w : Written) : Prop :=
  match w with
  | BySendResponse _ _ => True
  | BySendError _ _ => False
  end.

Section Host.
Context `{JsonDecoder}.

Definition parseRequest (data : string) (clientAddr : string)
    (uuid : string) (now : Time) : Request * option error :=
  match Unmarshal data with
  | None =>
    (mkRequest uuid "" "" data clientAddr now, None)
  | Some req =>
    let id := if String.eqb (env_ID req) "" then uuid else env_ID req in
    (mkRequest id "" (env_Command req) (env_Data req) clientAddr now, None)
  end.

(** [handleRequest]: the ledger after the call and the datagrams it
    wrote; [None] when the goroutine panics. *)
Definition handleRequest (stats : gmap ServiceType ServiceStats)
    (service : Service) (clientAddr : string) (data : string) (r : Readings)
  : option (gmap ServiceType ServiceStats * list Written) :=
  match updateStats stats (Name service) (count_received (startTime r)) with
  | None => None
  | Some stats1 =>
    match parseRequest data clientAddr (uuid r) (parseTime r) with
    | (request, Some err) =>
      match addError stats1 (Name service) with
      | Some stats2 =>
        Some (stats2,
              [BySendError clientAddr
                 (sendError (req_ID request) (Name service) err (errorTime r))])
      | None => None
      end
    | (request, None) =>
      let response := processRequest service stats1 r request in
      match updateStats stats1 (Name service)
              (count_processed (responseTime r)) with
      | Some stats2 =>
        Some (stats2, [BySendResponse clientAddr (sendResponse response)])
      | None => None
      end
    end
  end.

(** The closure a receive loop submits for one datagram. *)
Record Job := mkJob {
  job_service : Service;
  job_clientAddr : string;
  job_data : string
}.

Record Host := mkHost {
  threadPool : ThreadPool.ThreadPool Job;
  stats : gmap ServiceType ServiceStats;
  written : list Written
}.

(** [Start]: the pool is started and every service whose listener
    came up gets a zero record. *)
Definition Start (config : ThreadPoolConfig) (listening : list Service) : Host :=
  mkHost (ThreadPool.Start (ThreadPool.NewThreadPool config))
         (list_to_map (map (fun service => (Name service, ServiceStats_zero)) listening))
         [].

(** One iteration of [handleServiceConnections] that read a datagram:
    the job is submitted, and a failed submission is counted. *)
Definition receive (h : Host) (job : Job) : option Host :=
  match ThreadPool.Submit (threadPool h) job with
  | (tp, None) => Some (mkHost tp (stats h) (written h))
  | (tp, Some _) =>
    match addError (stats h) (Name (job_service job)) with
    | Some stats' => Some (mkHost tp stats' (written h))
    | None => None
    end
  end.

(** Worker [i] runs its job to the end. *)
Definition complete (h : Host) (i : nat) (r : Readings) : option Host :=
  match ThreadPool.workers (threadPool h) !! i with
  | Some (ThreadPool.Running job) =>
    match handleRequest (stats h) (job_service job) (job_clientAddr job)
            (job_data job) r,
          ThreadPool.worker_finish i (threadPool h) with
    | Some (stats', out), Some tp => Some (mkHost tp stats' (written h ++ out))
    | _, _ => None
    end
  | _ => None
  end.

Inductive Event :=
| Datagram (job : Job)
| Pickup (i : nat)
| Complete (i : nat) (r : Readings)
| IdleTimeout (i : nat)
| Tick.

Definition with_pool (h : Host) (tp : option (ThreadPool.ThreadPool Job))
  : option Host :=
  match tp with
  | Some tp => Some (mkHost tp (stats h) (written h))
  | None => None
  end.

Definition step (h : Host) (e : Event) : option Host :=
  match e with
  | Datagram job => receive h job
  | Pickup i => with_pool h (ThreadPool.worker_receive i (threadPool h))
  | Complete i r => complete h i r
  | IdleTimeout i => with_pool h (ThreadPool.worker_timeout i (threadPool h))
  | Tick => with_pool h (Some (ThreadPool.optimize (threadPool h)))
  end.

Fixpoint run (h : Host) (es : list Event) : option Host :=
  match es with
  | [] => Some h
  | e :: rest =>
    match step h e with
    | Some h' => run h' rest
    | None => None
    end
  end.

(** The jobs a receive loop can submit are those of a listening
    service. *)
Definition admissible (listening : list Service) (e : Event) : Prop :=
  match e with
  | Datagram job => job_service job ∈ listening
  | _ => True
  end.

Definition reachable (config : ThreadPoolConfig) (listening : list Service)
    (h : Host) : Prop :=
  exists es, Forall (admissible listening) es
             /\ run (Start config listening) es = Some h.

(** P5 of the specification, on the record of one tag. *)
Definition stats_consistent (st : ServiceStats) : Prop :=
  RequestsProcessed st + Errors st <= RequestsReceived st.

End Host.

End UDPServer.

(** ** lab3: the chunk-size policy *)

Module Lab3.
Import Domain GoInt.

(** lab3/internal/domain/command.go *)
Definition DefaultChunkSize : Z := 1024.
Definition MaxChunkSize : Z := 8192.
Definition MinChunkSize : Z := 512.

(** [d.Milliseconds()] *)
Definition Milliseconds (d : Duration) : Z := Z.quot d 1000000.

(** [selectMultiplexer.calculateOptimalChunkSize], the value a new
    session of the select server gets. *)
Definition calculateOptimalChunkSize (ping : Duration) : Z :=
  let targetLatency := mul64 ping 10 in
  let bytesPerMs := Z.quot (1024 * 1024) 1000 in
  let chunkSize := wrap64 (Milliseconds targetLatency * bytesPerMs) in
  let chunkSize := if chunkSize <? MinChunkSize then MinChunkSize else chunkSize in
  let chunkSize := if MaxChunkSize <? chunkSize then MaxChunkSize else chunkSize in
  chunkSize.

(** The package-level [CalculateOptimalChunkSize] of the multiplexer
    package, with its comment: cap at 512 bytes for interactive use. *)
Definition CalculateOptimalChunkSize (pingTime : Duration) (bandwidth : Z) : Z :=
  let maxInteractiveChunk :=
    div64 (div64 (mul64 pingTime bandwidth) 8) Millisecond in
  if 512 <? maxInteractiveChunk then 512 else maxInteractiveChunk.

Definition clamp (x lo hi : Z) : Z := Z.min (Z.max x lo) hi.

End Lab3.

(** ** Reference text conversions

    An instance of [FloatText] to run the calculator on: plain decimal
    literals with at most 22 fractional digits and a mantissa below 2^53
    (both operands of the division are then exact, so the quotient is the
    nearest binary64 number), and the two-decimal rendering of a binary64
    number computed from its exact value, ties to even. *)

Module Reference.
Import GoLib.

Definition digit (c : Ascii.ascii) : option Z :=
  let n := Z.of_N (Ascii.N_of_ascii c) in
  if (48 <=? n) && (n <=? 57) then Some (n - 48) else None.

(** Mantissa, number of fractional digits and number of digits. *)
Fixpoint mantissa (s : string) (seen_dot : bool) (m k : Z) (n : nat)
  : option (Z * Z * nat) :=
  match s with
  | EmptyString => Some (m, k, n)
  | String c rest =>
    if Ascii.eqb c "."%char then
      if seen_dot then None else mantissa rest true m k n
    else
      match digit c with
      | Some d => mantissa rest seen_dot (10 * m + d) (if seen_dot then k + 1 else k) (S n)
      | None => None
      end
  end.

Definition parse_decimal (s : string) : option float :=
  let '(neg, body) :=
    match s with
    | String "-"%char rest => (true, rest)
    | String "+"%char rest => (false, rest)
    | _ => (false, s)
    end in
  match mantissa body false 0 0 0 with
  | Some (m, k, n) =>
    if (0 <? n)%nat && (m <? 2 ^ 53) && (k <=? 22) then
      let v := PrimFloat.div (GoInt.float64_of_Z m) (GoInt.float64_of_Z (10 ^ k)) in
      Some (if neg then PrimFloat.opp v else v)
    else None
  | None => None
  end.

(** The integer nearest to [num / den], ties to even, for [den > 0]. *)
Definition round_half_even (num den : Z) : Z :=
  let q := num `div` den in
  let r := num `mod` den in
  if 2 * r <? den then q
  else if den <? 2 * r then q + 1
  else if Z.even q then q else q + 1.

Definition format_2f (f : float) : string :=
  match Prim2SF f with
  | S754_nan => "NaN"
  | S754_infinity false => "+Inf"
  | S754_infinity true => "-Inf"
  | S754_zero s => (if s then "-" else "") +:+ "0.00"
  | S754_finite s m e =>
    let hundredths :=
      if 0 <=? e then Z.pos m * 100 * 2 ^ e
      else round_half_even (Z.pos m * 100) (2 ^ (- e)) in
    (if s then "-" else "")
    +:+ pretty (hundredths `div` 100)
    +:+ "."
    +:+ pretty ((hundredths `mod` 100) `div` 10)
    +:+ pretty (hundredths `mod` 10)
  end.

Definition float_text : FloatText :=
  {| ParseFloat := parse_decimal; Sprintf_2f := format_2f |}.

(** An instance of [JsonDecoder] to run the host on: objects whose
    members are strings without escapes, keys compared without regard to
    the case of ASCII letters, a later member overriding an earlier one.
    Any other body is refused. *)
Inductive decode_state :=
| BeforeObject
| BeforeKey (first : bool)
| InKey (key : string)
| BeforeColon (key : string)
| BeforeValue (key : string)
| InValue (key value : string)
| AfterValue
| AfterObject.

Definition code (c : Ascii.ascii) : Z := Z.of_N (Ascii.N_of_ascii c).

Definition is_json_space (c : Ascii.ascii) : bool :=
  (code c =? 32) || (code c =? 9) || (code c =? 10) || (code c =? 13).

Definition is_quote (c : Ascii.ascii) : bool := code c =? 34.

(** A byte that stands for itself inside a string literal. *)
Definition is_plain (c : Ascii.ascii) : bool :=
  (32 <=? code c) && (code c <? 128) && negb (code c =? 34) && negb (code c =? 92).

Definition lower (c : Ascii.ascii) : Ascii.ascii :=
  if (65 <=? code c) && (code c <=? 90)
  then Ascii.ascii_of_N (Z.to_N (code c + 32)) else c.

Fixpoint lower_string (s : string) : string :=
  match s with
  | EmptyString => EmptyString
  | String c rest => String (lower c) (lower_string rest)
  end.

Definition set_field (env : Envelope) (key value : string) : Envelope :=
  let k := lower_string key in
  if String.eqb k "id" then mkEnvelope value (env_Command env) (env_Data env)
  else if String.eqb k "command" then mkEnvelope (env_ID env) value (env_Data env)
  else if String.eqb k "data" then mkEnvelope (env_ID env) (env_Command env) value
  else env.

Definition push (s : string) (c : Ascii.ascii) : string := s +:+ String c EmptyString.

Fixpoint decode (s : string) (st : decode_state) (env : Envelope) : option Envelope :=
  match s with
  | EmptyString =>
    match st with
    | AfterObject => Some env
    | _ => None
    end
  | String c rest =>
    match st with
    | BeforeObject =>
      if is_json_space c then decode rest BeforeObject env
      else if code c =? 123 then decode rest (BeforeKey true) env
      else None
    | BeforeKey first =>
      if is_json_space c then decode rest (BeforeKey first) env
      else if is_quote c then decode rest (InKey EmptyString) env
      else if first && (code c =? 125) then decode rest AfterObject env
      else None
    | InKey key =>
      if is_quote c then decode rest (BeforeColon key) env
      else if is_plain c then decode rest (InKey (push key c)) env
      else None
    | BeforeColon key =>
      if is_json_space c then decode rest (BeforeColon key) env
      else if code c =? 58 then decode rest (BeforeValue key) env
      else None
    | BeforeValue key =>
      if is_json_space c then decode rest (BeforeValue key) env
      else if is_quote c then decode rest (InValue key EmptyString) env
      else None
    | InValue key value =>
      if is_quote c then decode rest AfterValue (set_field env key value)
      else if is_plain c then decode rest (InValue key (push value c)) env
      else None
    | AfterValue =>
      if is_json_space c then decode rest AfterValue env
      else if code c =? 44 then decode rest (BeforeKey false) env
      else if code c =? 125 then decode rest AfterObject env
      else None
    | AfterObject =>
      if is_json_space c then decode rest AfterObject env else None
    end
  end.

Definition decode_envelope (data : string) : option Envelope :=
  decode data BeforeObject (mkEnvelope EmptyString EmptyString EmptyString).

Definition json_decoder : JsonDecoder := {| Unmarshal := decode_envelope |}.

(** A string literal of JSON, and the request body with the three
    members in the order of the specification. *)
Definition quoted (s : string) : string :=
  let q := String (Ascii.ascii_of_nat 34) EmptyString in q +:+ s +:+ q.

Definition envelope_text (id command data : string) : string :=
  "{" +:+ quoted "id" +:+ ":" +:+ quoted id +:+ ","
  +:+ quoted "command" +:+ ":" +:+ quoted command +:+ ","
  +:+ quoted "data" +:+ ":" +:+ quoted data +:+ "}".

End Reference.

(** ** Scenarios

    The concrete services, registries and requests the properties below
    are run on. *)

Module Scenario.
Import Domain Registry.

Definition echo_8081 : Service := Usecase.NewEchoService 8081.
Definition echo_9000 : Service := Usecase.NewEchoService 9000.
Definition echo2_8081 : Service :=
  mkService "echo2" 8081 (HandleRequest echo_8081).
Definition time_8082 : Service :=
  mkService TimeService 8082 (HandleRequest echo_8081).

(** The registry that holds echo on port 8081. *)
Definition with_echo : ServiceRegistry :=
  fst (RegisterService NewServiceRegistry echo_8081).

(** Requests to the calculator, as [parseRequest] builds them. *)
Definition calc_request (id data : string) : Request :=
  mkRequest id "" "" data "client" 0.

Definition readings : UDPServer.Readings :=
  UDPServer.mkReadings 100 101 102 103 104 7 "generated-id".

(** The calculator of the default configuration, run on the reference
    conversions, and its reply to "1 / 0" as [sendResponse] frames it. *)
Definition calc_8084 : Service := @Usecase.NewCalcService Reference.float_text 8084.

Definition division_reply : gmap string GoLib.JSON :=
  UDPServer.sendResponse
    (UDPServer.processRequest calc_8084 ∅ readings (calc_request "4" "1 / 0")).

(** One echo exchange on the small configuration: the datagram of
    scenario 1 arrives, worker 0 picks the job up and completes it. *)
Definition echo_exchange : list UDPServer.Event :=
  [ UDPServer.Datagram
      (UDPServer.mkJob echo_8081 "client" (Reference.envelope_text "1" "" "hi"));
    UDPServer.Pickup 0;
    UDPServer.Complete 0 readings ].

(** The host after that exchange, and what the call of [handleRequest]
    inside it returned. *)
Definition echo_host : UDPServer.Host :=
  default (@UDPServer.Start ThreadPool.small_config [echo_8081])
    (@UDPServer.run Reference.json_decoder
       (@UDPServer.Start ThreadPool.small_config [echo_8081]) echo_exchange).

Definition echo_handled : gmap ServiceType ServiceStats * list UDPServer.Written :=
  default (∅, [])
    (@UDPServer.handleRequest Reference.json_decoder
       {[ EchoService := ServiceStats_zero ]} echo_8081 "client"
       (Reference.envelope_text "1" "" "hi") readings).

(** A datagram for the echo service, and the receive loop of echo
    reading it again and again while no worker picks anything up: twice
    under the small configuration, 1001 times under the default one. *)
Definition echo_job : UDPServer.Job :=
  UDPServer.mkJob echo_8081 "client" "hi".

Definition flood_small : list UDPServer.Event :=
  [UDPServer.Datagram echo_job; UDPServer.Datagram echo_job].

Definition flood_default : list UDPServer.Event :=
  replicate 1001 (UDPServer.Datagram echo_job).

(** The record of echo in a host. *)
Definition echo_record (h : UDPServer.Host) : option ServiceStats :=
  UDPServer.stats h !! EchoService.

End Scenario.

(** ** service_registry.go: the listing *)

Module RegistryListing.
Import Domain Registry.

(** [ListServices]: the keys of [sr.services].  Go ranges over a map in
    an unspecified order; the order taken here is that of [map_to_list],
    and nothing below depends on it. *)
Definition ListServices (sr : ServiceRegistry) : list ServiceType :=
  (map_to_list (services sr)).*1.

(** The two indices of a registry agree: a tag maps to a service of that
    tag whose port maps back to the tag, and a port maps to the tag of a
    registered service bound to that port. *)
Definition indices_agree (sr : ServiceRegistry) : Prop :=
  (forall t s, services sr !! t = Some s ->
     Name s = t /\ ports sr !! Port s = Some t)
  /\ (forall p t, ports sr !! p = Some t ->
     exists s, services sr !! t = Some s /\ Port s = p).

(** The registries [RegisterService] builds from the empty one. *)
Definition built (sr : ServiceRegistry) : Prop :=
  exists calls, fst (register_all NewServiceRegistry calls) = sr.

End RegistryListing.

(** ** thread_pool.go: what a run of the pool did *)

Module PoolHistory.
Import Domain GoInt ThreadPool.

Section History.
Context {Task : Type}.

(** The tasks the workers are inside of, in the order of the workers. *)
Fixpoint running_tasks (ws : list (Worker Task)) : list Task :=
  match ws with
  | [] => []
  | Waiting :: rest => running_tasks rest
  | Running task :: rest => task :: running_tasks rest
  end.

(** The sentinels the manager has put, or is stuck putting, on
    [workerQueue]: one for each decrement [optimize] did. *)
Definition sentinels (tp : ThreadPool Task) : Z :=
  workerQueue tp + (if managerBlocked tp then 1 else 0).

(** What happened in a run: the tasks [Submit] accepted, the tasks the
    workers received and the tasks whose [task()] returned, each oldest
    first, and the number of ticks on which [optimize] decremented the
    counter of workers. *)
Record History := mkHistory {
  accepted : list Task;
  picked : list Task;
  finished : list Task;
  shrinks : nat
}.

Definition no_history : History := mkHistory [] [] [] 0.

(** The contribution of one step taken in pool [tp]. *)
Definition record_step (tp : ThreadPool Task) (s : Step Task) (h : History)
  : History :=
  match s with
  | DoSubmit task =>
    match snd (Submit tp task) with
    | None => mkHistory (task :: accepted h) (picked h) (finished h) (shrinks h)
    | Some _ => h
    end
  | DoReceive i =>
    match taskQueue tp with
    | task :: _ => mkHistory (accepted h) (task :: picked h) (finished h) (shrinks h)
    | [] => h
    end
  | DoFinish i =>
    match workers tp !! i with
    | Some (Running task) =>
      mkHistory (accepted h) (picked h) (task :: finished h) (shrinks h)
    | _ => h
    end
  | DoTimeout i => h
  | DoOptimize =>
    if currentWorkers (optimize tp) =? currentWorkers tp then h
    else mkHistory (accepted h) (picked h) (finished h) (S (shrinks h))
  end.

Fixpoint history (tp : ThreadPool Task) (ss : list (Step Task)) : History :=
  match ss with
  | [] => no_history
  | s :: rest =>
    match step tp s with
    | Some tp' => record_step tp s (history tp' rest)
    | None => no_history
    end
  end.

(** A configuration whose numbers are non-negative and small enough for
    the 32-bit counters. *)
Definition sane (config : ThreadPoolConfig) : Prop :=
  0 <= cfg_MinWorkers config < 2 ^ 31
  /\ 0 <= cfg_MaxWorkers config
  /\ 0 <= cfg_QueueSize config
  /\ cfg_QueueSize config + 2 * cfg_MaxWorkers config + 2 < 2 ^ 31.

(** What the counters of a pool count. *)
Definition accounted (tp : ThreadPool Task) : Prop :=
  activeWorkers tp = Z.of_nat (length (running_tasks (workers tp)))
  /\ queuedTasks tp
     = Z.of_nat (length (taskQueue tp)) + Z.of_nat (length (running_tasks (workers tp)))
  /\ Z.of_nat (length (workers tp)) = currentWorkers tp + sentinels tp
  /\ Z.of_nat (length (taskQueue tp)) <= queueSize tp
  /\ 0 <= currentWorkers tp <= maxWorkers tp
  /\ 0 <= workerQueue tp <= maxWorkers tp.

(** The pool still carries the numbers of its configuration. *)
Definition configured (config : ThreadPoolConfig) (tp : ThreadPool Task) : Prop :=
  minWorkers tp = cfg_MinWorkers config
  /\ maxWorkers tp = cfg_MaxWorkers config
  /\ queueSize tp = cfg_QueueSize config.

(** What each operation of the pool keeps. *)
Definition kept (config : ThreadPoolConfig) (tp : ThreadPool Task) : Prop :=
  configured config tp /\ accounted tp.

End History.

Arguments History : clear implicits.

(** A scheduling of the small configuration: task 7 is accepted and
    taken by worker 0, task 8 is accepted and task 9 refused (the queue
    of one is full), worker 1 takes task 8, task 7 ends. *)
Definition fifo_trace : list (Step nat) :=
  [ DoSubmit 7%nat; DoReceive 0%nat; DoSubmit 8%nat; DoSubmit 9%nat;
    DoReceive 1%nat; DoFinish 0%nat ].

End PoolHistory.

(** ** lab4/internal/infrastructure/network/udp_client.go *)

Module UDPClient.
Import Domain.

(** The anonymous struct of [parseResponse]. *)
Record Reply := mkReply {
  reply_ID : string;
  reply_Service : string;
  reply_Data : string;
  reply_Error : string;
  reply_Timestamp : Z
}.

(** [c.responses]: for each request id that a [SendRequest] waits on,
    the contents of its channel, which has room for one response. *)
Abbreviation Pending := (gmap string (list Response)).

Section Client.

(** [json.Unmarshal(data, &resp)] into that struct, [Some resp] when the
    error is nil, and the message of [fmt.Errorf(format)]: both belong
    to the Go standard library. *)
Variable UnmarshalReply : string -> option Reply.
Variable Errorf : string -> string.

(** [parseResponse]; [time.Unix(sec, 0)] in nanoseconds. *)
Definition parseResponse (data : string) : option Response * option error :=
  match UnmarshalReply data with
  | None => (None, Some "failed to unmarshal response")
  | Some resp =>
    (Some (mkResponse (reply_ID resp) (reply_Service resp) (reply_Data resp)
             (if String.eqb (reply_Error resp) "" then None
              else Some (Errorf (reply_Error resp)))
             (reply_Timestamp resp * Second)), None)
  end.

(** [SendRequest] registers its channel before it writes the request and
    removes it when it returns. *)
Definition register (responses : Pending) (requestID : string) : Pending :=
  <[requestID := []]> responses.

Definition unregister (responses : Pending) (requestID : string) : Pending :=
  delete requestID responses.

(** The end of one iteration of [listenResponses]: the response goes to
    the channel registered under its id when that channel has room, and
    is dropped otherwise. *)
Definition route (responses : Pending) (response : Response) : Pending :=
  match responses !! resp_ID response with
  | Some channel =>
    if (length channel <? 1)%nat
    then <[resp_ID response := channel ++ [response]]> responses
    else responses
  | None => responses
  end.

(** One iteration of [listenResponses] that read a datagram. *)
Definition listen (responses : Pending) (data : string) : Pending :=
  match parseResponse data with
  | (Some response, None) => route responses response
  | _ => responses
  end.

End Client.

(** The responses among [rs] that carry the id [requestID]. *)
Definition carrying (requestID : string) (rs : list Response) : list Response :=
  filter (fun r => resp_ID r = requestID) rs.

(** The listener routes the responses it decodes one after the other. *)
Definition route_all (responses : Pending) (rs : list Response) : Pending :=
  foldl route responses rs.

End UDPClient.

(** ** What the services of lab4 reply *)

Module Replies.
Import Domain GoLib UDPServer.


(** The commands the stats service knows. *)
Definition stats_commands : list string := ["ALL"; "SERVICE"; "POOL"; "HELP"].

Section Objects.
Context `{TimeText}.

(** The values the stats service hands to [json.MarshalIndent]. *)
Definition all_stats (stats : gmap ServiceType ServiceStats) : JSON :=
  JObj ((fun st => JObj (Usecase.stats_fields st)) <$> stats).

Definition service_stats (tag : ServiceType) (st : ServiceStats) : JSON :=
  JObj (<["service" := JStr tag]> (Usecase.stats_fields st)).

End Objects.

End Replies.

(** ** lab3: descriptor sets, command text and the session table of the
       select server *)

Module Lab3Select.
Import Domain GoInt.

(** [domain.FdSet]: [Bits [32]int32], as the list of its words. *)
Abbreviation FdSet := (list Z).

(** [1 << (uint(fd) % 32)] at type [int32]: the conversion to [uint]
    wraps to 64 bits, and the shift of an [int32] wraps to 32. *)
Definition mask (fd : Z) : Z :=
  wrap32 (Z.shiftl 1 ((fd mod 2 ^ 64) mod 32)).

(** [UnixSelectSystem.FDSet]; [None] is the panic of an index out of
    range. *)
Definition FDSet (fd : Z) (set : FdSet) : option FdSet :=
  let i := Z.quot fd 32 in
  if (i <? 0) || (Z.of_nat (length set) <=? i) then None
  else
    match set !! Z.to_nat i with
    | Some word => Some (<[Z.to_nat i := Z.lor word (mask fd)]> set)
    | None => None
    end.

(** [UnixSelectSystem.FDIsSet]: the length test comes first, and a
    negative index panics. *)
Definition FDIsSet (fd : Z) (set : FdSet) : option bool :=
  let i := Z.quot fd 32 in
  if Z.of_nat (length set) <=? i then Some false
  else if i <? 0 then None
  else
    match set !! Z.to_nat i with
    | Some word => Some (negb (Z.land word (mask fd) =? 0))
    | None => None
    end.

Definition FDZero (set : FdSet) : FdSet := replicate (length set) 0.

(** The zero value [&domain.FdSet{}]. *)
Definition new_FdSet : FdSet := replicate 32 0.

(** The bytes [trimString] removes. *)
Definition is_trimmed (c : Ascii.ascii) : bool :=
  let n := Z.of_N (Ascii.N_of_ascii c) in
  (n =? 10) || (n =? 13) || (n =? 32).

(** The first loop of [trimString], which drops the last byte while it
    is a line feed, a carriage return or a space: the string keeps its
    first byte unless what follows is dropped whole and that byte is
    dropped too. *)
Fixpoint drop_trailing (s : string) : string :=
  match s with
  | EmptyString => EmptyString
  | String c rest =>
    match drop_trailing rest with
    | EmptyString => if is_trimmed c then EmptyString else String c EmptyString
    | kept => String c kept
    end
  end.

(** The second loop, which drops the first byte while it is one of the
    three. *)
Fixpoint drop_leading (s : string) : string :=
  match s with
  | EmptyString => EmptyString
  | String c rest => if is_trimmed c then drop_leading rest else s
  end.

Definition trimString (s : string) : string := drop_leading (drop_trailing s).

Fixpoint all_trimmed (s : string) : bool :=
  match s with
  | EmptyString => true
  | String c rest => is_trimmed c && all_trimmed rest
  end.

Definition first_byte (s : string) : option Ascii.ascii := String.get 0 s.

(** [s[:n]] of Go; [None] is the panic of a bound out of range. *)
Definition slice_to (n : nat) (s : string) : option string :=
  if (n <=? String.length s)%nat then Some (String.substring 0 n s) else None.

(** [isInteractiveCommand]: the loop over the four words, with
    [len(dataStr) >= len(cmd) && dataStr[:len(cmd)] == cmd] evaluated
    from left to right. *)
Definition interactive_commands : list string := ["ECHO"; "TIME"; "HELP"; "STATUS"].

Fixpoint interactive_among (commands : list string) (dataStr : string)
  : option bool :=
  match commands with
  | [] => Some false
  | cmd :: others =>
    if (String.length cmd <=? String.length dataStr)%nat then
      match slice_to (String.length cmd) dataStr with
      | Some head =>
        if String.eqb head cmd then Some true
        else interactive_among others dataStr
      | None => None
      end
    else interactive_among others dataStr
  end.

Definition isInteractiveCommand (data : string) : option bool :=
  interactive_among interactive_commands data.

(** [domain.ClientConnection] of the select server.  The fields left
    out hold the connection itself, a buffer nothing reads and a file
    transfer nothing assigns. *)
Record ClientConnection := mkClient {
  cc_ID : string;
  cc_LastPing : Time;
  cc_IsActive : bool;
  cc_ChunkSize : Z;
  cc_FD : Z
}.

(** The fields of [domain.ServerConfig] the table depends on, and the
    table [sm.clients]. *)
Record selectMultiplexer := mkMux {
  MaxClients : Z;
  PingTimeout : Duration;
  clients : gmap string ClientConnection
}.

(** [t.Sub(u)]: the difference, saturated to [int64]. *)
Definition Sub (t u : Time) : Duration :=
  Z.max min_int64 (Z.min max_int64 (t - u)).

(** [handleNewConnection] once [Accept] has returned a connection.
    [now_id] and [now_ping] are the two readings of the clock, [fd] is
    the descriptor [File()] returned, [None] when it failed.  The
    rejected or failed connection is closed and leaves no trace. *)
Definition handleNewConnection (sm : selectMultiplexer)
    (now_id now_ping : Time) (fd : option Z) : selectMultiplexer * option error :=
  let clientCount := Z.of_nat (size (clients sm)) in
  if MaxClients sm <=? clientCount then (sm, None)
  else
    let clientID := "client_" +:+ pretty now_id in
    match fd with
    | None => (sm, Some "failed to get connection file descriptor")
    | Some fd =>
      (mkMux (MaxClients sm) (PingTimeout sm)
         (<[clientID :=
              mkClient clientID now_ping true
                (Lab3.calculateOptimalChunkSize (PingTimeout sm)) fd]>
            (clients sm)), None)
    end.

Definition RemoveConnection (sm : selectMultiplexer) (clientID : string)
  : selectMultiplexer :=
  mkMux (MaxClients sm) (PingTimeout sm) (delete clientID (clients sm)).

(** [checkPingTimeouts]: the table is copied, and every client of the
    copy whose last activity is older than the timeout is removed from
    the table.  [copy] is the copy in the order the loop ranges over
    it, which Go leaves open. *)
Definition expired (sm : selectMultiplexer) (now : Time) (c : ClientConnection)
  : bool :=
  PingTimeout sm <? Sub now (cc_LastPing c).

Definition checkPingTimeouts_over (copy : list (string * ClientConnection))
    (sm : selectMultiplexer) (now : Time) : selectMultiplexer :=
  foldl
    (fun sm entry =>
       if expired sm now entry.2 then RemoveConnection sm entry.1 else sm)
    sm copy.

Definition checkPingTimeouts (sm : selectMultiplexer) (now : Time)
  : selectMultiplexer :=
  checkPingTimeouts_over (map_to_list (clients sm)) sm now.

(** The first statement of [handleClientRead]. *)
Definition touch (sm : selectMultiplexer) (clientID : string) (now : Time)
  : selectMultiplexer :=
  mkMux (MaxClients sm) (PingTimeout sm)
    (alter (fun c => mkClient (cc_ID c) now (cc_IsActive c) (cc_ChunkSize c) (cc_FD c))
       clientID (clients sm)).

(** What the loop does to the table, one event at a time. *)
Inductive TableEvent :=
| Accepted (now_id now_ping : Time) (fd : option Z)
| Readable (clientID : string) (now : Time)
| Failed (clientID : string)
| Idle (now : Time).

Definition table_step (sm : selectMultiplexer) (e : TableEvent) : selectMultiplexer :=
  match e with
  | Accepted now_id now_ping fd => fst (handleNewConnection sm now_id now_ping fd)
  | Readable clientID now => touch sm clientID now
  | Failed clientID => RemoveConnection sm clientID
  | Idle now => checkPingTimeouts sm now
  end.

Definition table_run (sm : selectMultiplexer) (es : list TableEvent)
  : selectMultiplexer :=
  foldl table_step sm es.

(** [NewSelectMultiplexer] followed by [Start] with a configuration. *)
Definition new_table (max_clients : Z) (ping_timeout : Duration) : selectMultiplexer :=
  mkMux max_clients ping_timeout ∅.


(** The last byte of a string. *)
Fixpoint final_byte (s : string) : option Ascii.ascii :=
  match s with
  | EmptyString => None
  | String c EmptyString => Some c
  | String _ rest => final_byte rest
  end.

(** The sessions of a table are what [handleNewConnection] makes them:
    filed under their own id, active, with a chunk size between the two
    constants of the package. *)
Definition sessions_sound (sm : selectMultiplexer) : Prop :=
  Z.of_nat (size (clients sm)) <= MaxClients sm
  /\ forall clientID c, clients sm !! clientID = Some c ->
       cc_ID c = clientID /\ cc_IsActive c = true
       /\ Lab3.MinChunkSize <= cc_ChunkSize c <= Lab3.MaxChunkSize.

(** Three connections to a server that takes two, the second read from
    and the first then lost, and a sweep when every session left has
    been silent for too long. *)
Definition table_trace : list TableEvent :=
  [ Accepted 1000 1000 (Some 7); Accepted 2000 2000 (Some 8);
    Accepted 3000 3000 (Some 9); Readable "client_2000" 5000;
    Failed "client_1000"; Idle (5000 + 31 * Second) ].

End Lab3Select.

(** * Properties *)

(** ** Machine integers *)

Module GoIntProofs.
Import GoInt.

Lemma wrap64_small z : in_int64 z -> wrap64 z = z.
Proof.
  unfold in_int64, min_int64, max_int64, wrap64, wrap. intros Hz.
  rewrite Z.mod_small; lia.
Qed.

Lemma wrap64_range z : in_int64 (wrap64 z).
Proof.
  unfold in_int64, min_int64, max_int64, wrap64, wrap.
  pose proof (Z.mod_pos_bound (z + 2 ^ (64 - 1)) (2 ^ 64)). lia.
Qed.

(** A quotient by a positive constant lies between zero and the
    dividend. *)
Lemma quot_bounds x d :
  0 < d -> Z.min x 0 <= Z.quot x d <= Z.max x 0.
Proof.
  intros Hd. destruct (Z.le_gt_cases 0 x) as [Hx | Hx].
  - rewrite Z.quot_div_nonneg by lia.
    assert (0 <= x `div` d) by (apply Z.div_pos; lia).
    assert (x `div` d <= x) by (apply Z.div_le_upper_bound; nia).
    lia.
  - assert (Hq : Z.quot x d = - ((- x) `div` d)).
    { rewrite <- (Z.opp_involutive x) at 1.
      rewrite Z.quot_opp_l by lia. rewrite Z.quot_div_nonneg by lia. reflexivity. }
    rewrite Hq.
    assert (0 <= (- x) `div` d) by (apply Z.div_pos; lia).
    assert ((- x) `div` d <= - x) by (apply Z.div_le_upper_bound; nia).
    lia.
Qed.

End GoIntProofs.

(** ** The service registry *)

Module RegistryProofs.
Import Domain Registry Scenario.

Lemma RegisterService_tag_taken sr s :
  is_Some (services sr !! Name s) ->
  RegisterService sr s = (sr, Some ErrServiceExists).
Proof.
  intros [s' Hs]. unfold RegisterService. by rewrite Hs.
Qed.

Lemma RegisterService_port_taken sr s :
  services sr !! Name s = None ->
  is_Some (ports sr !! Port s) ->
  RegisterService sr s = (sr, Some ErrPortInUse).
Proof.
  intros Hs [t Hp]. unfold RegisterService. by rewrite Hs, Hp.
Qed.

Lemma RegisterService_fresh sr s :
  services sr !! Name s = None ->
  ports sr !! Port s = None ->
  RegisterService sr s =
    (mkRegistry (<[Name s := s]> (services sr)) (<[Port s := Name s]> (ports sr)),
     None).
Proof.
  intros Hs Hp. unfold RegisterService. by rewrite Hs, Hp.
Qed.

(** A registration that returns nil found both the tag and the port
    free and leaves both taken. *)
Lemma RegisterService_ok sr s sr' :
  RegisterService sr s = (sr', None) ->
  services sr !! Name s = None /\ ports sr !! Port s = None
  /\ services sr' = <[Name s := s]> (services sr)
  /\ ports sr' = <[Port s := Name s]> (ports sr).
Proof.
  unfold RegisterService.
  destruct (services sr !! Name s) eqn:Hs; [discriminate |].
  destruct (ports sr !! Port s) eqn:Hp; [discriminate |].
  intros [= <-]. done.
Qed.

Lemma RegisterService_error sr s sr' e :
  RegisterService sr s = (sr', Some e) -> sr' = sr.
Proof.
  unfold RegisterService.
  destruct (services sr !! Name s); [by intros [= <-] |].
  destruct (ports sr !! Port s); [by intros [= <-] | discriminate].
Qed.

(** The services registered by a run were free in the registry the run
    started from, and no two of them share a tag or a port. *)
Lemma register_all_fresh calls : forall sr sr' ok,
  register_all sr calls = (sr', ok) ->
  Forall (fun s => services sr !! Name s = None /\ ports sr !! Port s = None) ok
  /\ NoDup (Name <$> ok) /\ NoDup (Port <$> ok).
Proof.
  induction calls as [| s rest IH]; intros sr sr' ok; simpl.
  - intros [= <- <-]. split; [constructor |]. split; constructor.
  - destruct (RegisterService sr s) as [sr1 [e |]] eqn:Hreg.
    + apply RegisterService_error in Hreg as ->. apply IH.
    + destruct (register_all sr1 rest) as [sr2 ok'] eqn:Hrest.
      intros [= <- <-].
      apply RegisterService_ok in Hreg as (Hs & Hp & Hs1 & Hp1).
      destruct (IH _ _ _ Hrest) as (Hfresh & Htags & Hports).
      assert (Hold : Forall (fun x =>
                (services sr !! Name x = None /\ ports sr !! Port x = None)
                /\ Name x <> Name s /\ Port x <> Port s) ok').
      { eapply Forall_impl; [exact Hfresh |]. simpl. intros x [Hx Hy].
        rewrite Hs1 in Hx. rewrite Hp1 in Hy.
        apply lookup_insert_None in Hx as [Hx Hne].
        apply lookup_insert_None in Hy as [Hy Hne'].
        repeat split; auto. }
      split; [| split].
      * constructor; [done |].
        eapply Forall_impl; [exact Hold |]. simpl. tauto.
      * rewrite fmap_cons. constructor; [| done].
        intros Hin. apply list_elem_of_fmap in Hin as (x & Hx & Hin).
        rewrite Forall_forall in Hold. destruct (Hold x Hin) as (_ & Hn & _).
        congruence.
      * rewrite fmap_cons. constructor; [| done].
        intros Hin. apply list_elem_of_fmap in Hin as (x & Hx & Hin).
        rewrite Forall_forall in Hold. destruct (Hold x Hin) as (_ & _ & Hn).
        congruence.
Qed.

Lemma NoDup_fmap_lookup {A B} (f : A -> B) (l : list A) i j x y :
  NoDup (f <$> l) -> l !! i = Some x -> l !! j = Some y -> i <> j -> f x <> f y.
Proof.
  intros Hnd Hi Hj Hne Heq. apply Hne.
  eapply (NoDup_lookup _ i j (f x) Hnd).
  - by rewrite list_lookup_fmap, Hi.
  - by rewrite list_lookup_fmap, Hj, Heq.
Qed.

(** C6.  [RegisterService] returns [ErrServiceExists] when the tag of
    the service is registered, [ErrPortInUse] when the tag is free and
    the port is bound, both decided in the one transition the call is,
    and leaves the registry as it was in both cases; and in every run
    of registrations from the empty registry, two distinct successful
    registrations have different tags and different ports. *)
Theorem RegisterService_rejects_duplicates
    (sr : ServiceRegistry) (s t : Service) (calls : list Service)
    (i j : nat) (s1 s2 : Service) :
  (is_Some (services sr !! Name s) ->
     RegisterService sr s = (sr, Some ErrServiceExists))
  /\ (services sr !! Name t = None -> is_Some (ports sr !! Port t) ->
     RegisterService sr t = (sr, Some ErrPortInUse))
  /\ (registered calls !! i = Some s1 -> registered calls !! j = Some s2 ->
      i <> j -> Name s1 <> Name s2 /\ Port s1 <> Port s2).
Proof.
  split; [apply RegisterService_tag_taken |].
  split; [apply RegisterService_port_taken |].
  intros Hi Hj Hne. unfold registered in *.
  destruct (register_all NewServiceRegistry calls) as [sr' ok] eqn:Hrun.
  simpl in *.
  destruct (register_all_fresh _ _ _ _ Hrun) as (_ & Htags & Hports).
  split; eapply NoDup_fmap_lookup; eauto.
Qed.

(** Scenario 6 of the specification: with echo on port 8081, a second
    echo is refused for its tag and echo2 on 8081 for its port; of the
    calls echo:8081, echo2:8081, time:8082 the first and the third
    succeed. *)
Lemma RegisterService_rejects_duplicates_witness :
  RegisterService with_echo echo_9000 = (with_echo, Some ErrServiceExists)
  /\ RegisterService with_echo echo2_8081 = (with_echo, Some ErrPortInUse)
  /\ Name echo_8081 <> Name time_8082 /\ Port echo_8081 <> Port time_8082.
Proof.
  destruct (RegisterService_rejects_duplicates with_echo echo_9000 echo2_8081
              [echo_8081; echo2_8081; time_8082] 0 1 echo_8081 time_8082)
    as (Htag & Hport & Hdistinct).
  split; [apply Htag; eexists; reflexivity |].
  split; [apply Hport; [reflexivity | eexists; reflexivity] |].
  apply Hdistinct; [reflexivity | reflexivity | lia].
Defined.

End RegistryProofs.

(** ** The worker pool *)

Module ThreadPoolProofs.
Import Domain ThreadPool.

(** At the end of [small_trace] three workers are inside a task while
    the counter of workers reads two, and three tasks are counted as
    queued for a queue of one. *)
Lemma small_trace_snapshot :
  observe <$> run (Start (NewThreadPool small_config)) small_trace
  = Some ({| ActiveWorkers := 3; QueuedTasks := 3; CompletedTasks := 1;
             MinWorkers := 1; MaxWorkers := 2; CurrentWorkers := 2 |}, 1).
Proof. vm_compute. reflexivity. Qed.

(** The workers of [small_trace] are really there: the pool holds three
    goroutines, each inside a task. *)
Lemma small_trace_workers :
  workers <$> run (Start (NewThreadPool small_config)) small_trace
  = Some [Running 2%nat; Running 3%nat; Running 4%nat].
Proof. vm_compute. reflexivity. Qed.

Lemma default_trace_snapshot :
  observe <$> run (Start (NewThreadPool default_config)) default_trace
  = Some ({| ActiveWorkers := 6; QueuedTasks := 6; CompletedTasks := 801;
             MinWorkers := 5; MaxWorkers := 50; CurrentWorkers := 5 |}, 1000).
Proof. vm_compute. reflexivity. Qed.

Lemma busy_trace_snapshot :
  observe <$> run (Start (NewThreadPool default_config)) busy_trace
  = Some ({| ActiveWorkers := 5; QueuedTasks := 1005; CompletedTasks := 0;
             MinWorkers := 5; MaxWorkers := 50; CurrentWorkers := 50 |}, 1000).
Proof. vm_compute. reflexivity. Qed.

(** A trace with a known snapshot gives a reachable pool with that
    snapshot. *)
Lemma reachable_of_trace config trace snapshot :
  observe <$> run (Start (NewThreadPool config)) trace = Some snapshot ->
  exists tp : ThreadPool nat,
    reachable config tp /\ Stats tp = fst snapshot /\ queueSize tp = snd snapshot.
Proof.
  destruct (run (Start (NewThreadPool config)) trace) as [tp |] eqn:Hrun;
    [| discriminate].
  intros [= <-]. exists tp. split; [by exists trace | done].
Qed.

(** C1.  The bounds of P2 are not an invariant of the pool.  Under a
    small configuration and under the default one, a started pool
    reaches, by submissions, task pick-ups, task completions and one
    tick of the manager, a state whose snapshot shows more active
    workers than current workers; and a state whose count of queued
    tasks exceeds the capacity of the queue. *)
Theorem pool_bounds_not_invariant :
  (exists tp : ThreadPool nat,
     reachable small_config tp
     /\ CurrentWorkers (Stats tp) < ActiveWorkers (Stats tp)
     /\ queueSize tp < QueuedTasks (Stats tp)
     /\ ~ pool_bounds (queueSize tp) (Stats tp))
  /\ (exists tp : ThreadPool nat,
       reachable default_config tp
       /\ CurrentWorkers (Stats tp) < ActiveWorkers (Stats tp))
  /\ (exists tp : ThreadPool nat,
       reachable default_config tp
       /\ queueSize tp < QueuedTasks (Stats tp)).
Proof.
  split; [| split].
  - destruct (reachable_of_trace _ _ _ small_trace_snapshot)
      as (tp & Hreach & Hstats & Hsize).
    exists tp. split; [exact Hreach |].
    unfold pool_bounds. rewrite Hstats, Hsize. simpl. lia.
  - destruct (reachable_of_trace _ _ _ default_trace_snapshot)
      as (tp & Hreach & Hstats & _).
    exists tp. split; [exact Hreach |]. rewrite Hstats. simpl. lia.
  - destruct (reachable_of_trace _ _ _ busy_trace_snapshot)
      as (tp & Hreach & Hstats & Hsize).
    exists tp. split; [exact Hreach |]. rewrite Hstats, Hsize. simpl. lia.
Qed.

End ThreadPoolProofs.

(** ** The statistics ledger of the datagram host *)

Module LedgerProofs.
Import Domain UDPServer Scenario.

Section Ledger.
Context `{GoLib.JsonDecoder}.

Lemma flood_small_record :
  echo_record <$> run (Start ThreadPool.small_config [echo_8081]) flood_small
  = Some (Some {| RequestsReceived := 0; RequestsProcessed := 0; Errors := 1;
                  AvgResponseTime := 0; LastRequest := 0 |}).
Proof. vm_compute. reflexivity. Qed.

Lemma flood_default_record :
  echo_record <$> run (Start ThreadPool.default_config [echo_8081]) flood_default
  = Some (Some {| RequestsReceived := 0; RequestsProcessed := 0; Errors := 1;
                  AvgResponseTime := 0; LastRequest := 0 |}).
Proof. vm_compute. reflexivity. Qed.

Lemma flood_admissible n :
  Forall (admissible [echo_8081]) (replicate n (Datagram echo_job)).
Proof. apply Forall_replicate. simpl. apply list_elem_of_singleton. reflexivity. Qed.

Lemma reachable_of_events config (n : nat) record :
  echo_record <$> run (Start config [echo_8081]) (replicate n (Datagram echo_job))
    = Some (Some record) ->
  exists h, reachable config [echo_8081] h /\ stats h !! EchoService = Some record.
Proof.
  destruct (run (Start config [echo_8081]) (replicate n (Datagram echo_job)))
    as [h |] eqn:Hrun; [| discriminate].
  intros [= Hrec]. exists h. split; [| exact Hrec].
  eexists. split; [apply flood_admissible | exact Hrun].
Qed.

(** C2.  [processed + errors <= received] is not an invariant of the
    ledger.  When the queue of the pool is full the receive loop counts
    an error for the tag, and the datagram never reaches [handleRequest],
    the only place that counts it as received: after one dropped
    datagram the record of echo reads received 0, processed 0, errors 1.
    Two datagrams do it under the small configuration, 1001 under the
    default one. *)
Theorem stats_consistency_not_invariant :
  (exists h st,
     reachable ThreadPool.small_config [echo_8081] h
     /\ stats h !! EchoService = Some st
     /\ RequestsReceived st = 0 /\ RequestsProcessed st = 0 /\ Errors st = 1
     /\ ~ stats_consistent st)
  /\ (exists h st,
       reachable ThreadPool.default_config [echo_8081] h
       /\ stats h !! EchoService = Some st
       /\ RequestsReceived st = 0 /\ RequestsProcessed st = 0 /\ Errors st = 1
       /\ ~ stats_consistent st).
Proof.
  split.
  - destruct (reachable_of_events _ 2 _ flood_small_record) as (h & Hreach & Hrec).
    eexists h, _. split; [exact Hreach |]. split; [exact Hrec |].
    unfold stats_consistent. simpl. lia.
  - destruct (reachable_of_events _ 1001 _ flood_default_record) as (h & Hreach & Hrec).
    eexists h, _. split; [exact Hreach |]. split; [exact Hrec |].
    unfold stats_consistent. simpl. lia.
Qed.

End Ledger.

End LedgerProofs.

(** ** The calculator *)

Module CalcProofs.
Import Domain GoLib GoStrings Usecase Scenario.

Section Calc.
Context `{FloatText}.

Lemma operators_cases op :
  op ∈ operators <-> op = "+" \/ op = "-" \/ op = "*" \/ op = "/".
Proof.
  unfold operators. rewrite !elem_of_cons, elem_of_nil. tauto.
Qed.

Lemma eqb_false_of_not_operator op :
  op ∉ operators ->
  String.eqb op "+" = false /\ String.eqb op "-" = false
  /\ String.eqb op "*" = false /\ String.eqb op "/" = false.
Proof.
  rewrite operators_cases. intros Hno.
  repeat split; apply String.eqb_neq; intros ->; tauto.
Qed.

(** The reply once the request has three tokens and both operands
    parse. *)
Lemma calc_parsed now req lhs op rhs rest a b :
  Fields (req_Data req) = lhs :: op :: rhs :: rest ->
  ParseFloat lhs = Some a -> ParseFloat rhs = Some b ->
  CalcService_HandleRequest now req =
    if bool_decide (op ∈ operators) then
      if String.eqb op "/" && PrimFloat.eqb b 0%float
      then calc_error now req "division by zero"
      else calc_answer now req op a b
    else calc_error now req ("unsupported operator: " +:+ op).
Proof.
  intros Hparts Ha Hb. unfold CalcService_HandleRequest.
  rewrite Hparts. cbn [length Nat.ltb Nat.leb lookup_total list_lookup_total].
  rewrite Ha, Hb.
  case_bool_decide as Hop.
  - apply operators_cases in Hop as [-> | [-> | [-> | ->]]]; reflexivity.
  - apply eqb_false_of_not_operator in Hop as (-> & -> & -> & ->). reflexivity.
Qed.

(** C3.  The calculator never returns a Go-level error.  With fewer
    than three white-space separated tokens in the data it replies with
    the usage error; with three or more, it reads the first three as
    lhs, op and rhs, and replies "invalid numbers" when one operand
    does not parse, "unsupported operator" when both parse and op is
    none of + - * /, "division by zero" when op is / and rhs equals
    zero, and the two-decimal rendering of lhs, op, rhs and the result
    otherwise.  For the data "5 * 10" that is "5.00 * 10.00 = 50.00". *)
Theorem CalcService_HandleRequest_cases (now : Time) (req : Request) :
  let parts := Fields (req_Data req) in
  snd (CalcService_HandleRequest now req) = None
  /\ ((length parts < 3)%nat ->
      CalcService_HandleRequest now req
      = calc_error now req "usage: <num1> <op> <num2>")
  /\ (forall lhs op rhs rest, parts = lhs :: op :: rhs :: rest ->
      (ParseFloat lhs = None \/ ParseFloat rhs = None ->
         CalcService_HandleRequest now req = calc_error now req "invalid numbers")
      /\ (forall a b, ParseFloat lhs = Some a -> ParseFloat rhs = Some b ->
          (op ∉ operators ->
             CalcService_HandleRequest now req
             = calc_error now req ("unsupported operator: " +:+ op))
          /\ (op = "/" -> PrimFloat.eqb b 0%float = true ->
             CalcService_HandleRequest now req
             = calc_error now req "division by zero")
          /\ (op ∈ operators -> (op = "/" -> PrimFloat.eqb b 0%float = false) ->
             CalcService_HandleRequest now req = calc_answer now req op a b)))
  /\ (req_Data req = "5 * 10" ->
      ParseFloat "5" = Some 5%float -> ParseFloat "10" = Some 10%float ->
      Sprintf_2f 5%float = "5.00" -> Sprintf_2f 10%float = "10.00" ->
      Sprintf_2f 50%float = "50.00" ->
      resp_Data (fst (CalcService_HandleRequest now req)) = "5.00 * 10.00 = 50.00"
      /\ resp_Error (fst (CalcService_HandleRequest now req)) = None).
Proof.
  intros parts. split; [| split; [| split]].
  - unfold CalcService_HandleRequest.
    destruct (length _ <? 3)%nat; [reflexivity |].
    destruct (ParseFloat _) as [a |]; [| reflexivity].
    destruct (ParseFloat _) as [b |]; [| reflexivity].
    cbv zeta.
    destruct (String.eqb _ "+"); [reflexivity |].
    destruct (String.eqb _ "-"); [reflexivity |].
    destruct (String.eqb _ "*"); [reflexivity |].
    destruct (String.eqb _ "/"); [| reflexivity].
    destruct (PrimFloat.eqb b 0); reflexivity.
  - intros Hlen. unfold CalcService_HandleRequest. fold parts.
    apply Nat.ltb_lt in Hlen. rewrite Hlen. reflexivity.
  - intros lhs op rhs rest Hparts. split.
    + intros Hbad. unfold CalcService_HandleRequest. fold parts.
      rewrite Hparts. cbn [length Nat.ltb Nat.leb lookup_total list_lookup_total].
      destruct Hbad as [-> | Hr]; [reflexivity |].
      rewrite Hr. destruct (ParseFloat lhs); reflexivity.
    + intros a b Ha Hb.
      rewrite (calc_parsed now req lhs op rhs rest a b Hparts Ha Hb).
      split; [| split].
      * intros Hno. by rewrite bool_decide_eq_false_2.
      * intros -> Hzero. rewrite Hzero. reflexivity.
      * intros Hop Hnz. rewrite bool_decide_eq_true_2 by done.
        destruct (String.eqb op "/") eqn:Hdiv; [| reflexivity].
        apply String.eqb_eq in Hdiv. rewrite (Hnz Hdiv). reflexivity.
  - intros Hdata H5 H10 Hf5 Hf10 Hf50.
    assert (Hparts : Fields (req_Data req) = ["5"; "*"; "10"])
      by (rewrite Hdata; reflexivity).
    rewrite (calc_parsed now req _ _ _ _ _ _ Hparts H5 H10).
    rewrite bool_decide_eq_true_2 by (apply operators_cases; tauto).
    change (String.eqb "*" "/" && PrimFloat.eqb 10 0) with false.
    unfold calc_answer.
    change (arithmetic "*" 5 10) with 50%float.
    cbv iota. cbn [fst resp_Data resp_Error].
    rewrite Hf5, Hf10, Hf50. split; reflexivity.
Qed.

End Calc.

(** The five cases at work with the reference conversions. *)
Lemma CalcService_HandleRequest_cases_witness :
  let calc := @CalcService_HandleRequest Reference.float_text 0 in
  calc (calc_request "1" "5 *")
    = (mkResponse "1" CalcService "" (Some "usage: <num1> <op> <num2>") 0, None)
  /\ calc (calc_request "2" "five * 10")
    = (mkResponse "2" CalcService "" (Some "invalid numbers") 0, None)
  /\ calc (calc_request "3" "5 ^ 10")
    = (mkResponse "3" CalcService "" (Some "unsupported operator: ^") 0, None)
  /\ calc (calc_request "4" "1 / 0")
    = (mkResponse "4" CalcService "" (Some "division by zero") 0, None)
  /\ calc (calc_request "5" "1 / 8")
    = (mkResponse "5" CalcService "1.00 / 8.00 = 0.12" None 0, None)
  /\ resp_Data (fst (calc (calc_request "3" "5 * 10"))) = "5.00 * 10.00 = 50.00".
Proof.
  intros calc.
  pose proof (@CalcService_HandleRequest_cases Reference.float_text 0) as Hcases.
  split; [| split; [| split; [| split; [| split]]]].
  - destruct (Hcases (calc_request "1" "5 *")) as (_ & Husage & _).
    apply Husage. vm_compute. lia.
  - destruct (Hcases (calc_request "2" "five * 10")) as (_ & _ & Hthree & _).
    destruct (Hthree "five" "*" "10" [] eq_refl) as (Hinvalid & _).
    apply Hinvalid. left. reflexivity.
  - destruct (Hcases (calc_request "3" "5 ^ 10")) as (_ & _ & Hthree & _).
    destruct (Hthree "5" "^" "10" [] eq_refl) as (_ & Hparsed).
    destruct (Hparsed 5%float 10%float eq_refl eq_refl) as (Hunsupported & _).
    apply Hunsupported. rewrite operators_cases.
    intros [Heq | [Heq | [Heq | Heq]]]; discriminate Heq.
  - destruct (Hcases (calc_request "4" "1 / 0")) as (_ & _ & Hthree & _).
    destruct (Hthree "1" "/" "0" [] eq_refl) as (_ & Hparsed).
    destruct (Hparsed 1%float 0%float eq_refl eq_refl) as (_ & Hzero & _).
    apply Hzero; reflexivity.
  - destruct (Hcases (calc_request "5" "1 / 8")) as (_ & _ & Hthree & _).
    destruct (Hthree "1" "/" "8" [] eq_refl) as (_ & Hparsed).
    destruct (Hparsed 1%float 8%float eq_refl eq_refl) as (_ & _ & Hanswer).
    apply Hanswer; [apply operators_cases; tauto | reflexivity].
  - destruct (Hcases (calc_request "3" "5 * 10")) as (_ & _ & _ & Hexample).
    apply Hexample; reflexivity.
Defined.

End CalcProofs.

(** ** Replies of the datagram host *)

Module ReplyProofs.
Import Domain GoLib Usecase UDPServer Scenario.

Lemma sendResponse_error response err :
  resp_Error response = Some err ->
  sendResponse response !! "error" = Some (JStr err)
  /\ sendResponse response !! "data" = Some (JStr ("ERROR: " +:+ err)).
Proof.
  intros Herr. unfold sendResponse. rewrite Herr. split; reflexivity.
Qed.

Lemma sendResponse_data response :
  resp_Error response = None ->
  sendResponse response !! "error" = None
  /\ sendResponse response !! "data" = Some (JStr (resp_Data response)).
Proof.
  intros Herr. unfold sendResponse. rewrite Herr. split; reflexivity.
Qed.

(** C4, as stated, fails: the reply to the calculator request "1 / 0"
    has an error member, and its data member is present and is the
    text "ERROR: division by zero". *)
Lemma division_reply_has_data :
  is_Some (division_reply !! "error")
  /\ division_reply !! "data" = Some (JStr "ERROR: division by zero")
  /\ ~ data_absent_or_empty division_reply.
Proof.
  split; [eexists; vm_compute; reflexivity |].
  assert (Hdata : division_reply !! "data" = Some (JStr "ERROR: division by zero"))
    by (vm_compute; reflexivity).
  split; [exact Hdata |].
  unfold data_absent_or_empty. rewrite Hdata. intros [Habs | Hempty]; discriminate.
Qed.

(** C4, amended.  In the object [sendResponse] writes, the error member
    is present exactly when the response carries an error; it then
    holds the error text, and the data member holds "ERROR: " followed
    by that text; without an error the data member holds the payload.
    The calculator's reply to "1 / 0" has error "division by zero" and
    data "ERROR: division by zero". *)
Theorem sendResponse_members `{FloatText} (response : Response)
    (stats : gmap ServiceType ServiceStats) (r : Readings) (port : Z) (id : string) :
  (is_Some (sendResponse response !! "error") <-> is_Some (resp_Error response))
  /\ (forall err, resp_Error response = Some err ->
       sendResponse response !! "error" = Some (JStr err)
       /\ sendResponse response !! "data" = Some (JStr ("ERROR: " +:+ err)))
  /\ (resp_Error response = None ->
       sendResponse response !! "data" = Some (JStr (resp_Data response)))
  /\ (forall a b, ParseFloat "1" = Some a -> ParseFloat "0" = Some b ->
       PrimFloat.eqb b 0%float = true ->
       let body := sendResponse
                     (processRequest (NewCalcService port) stats r
                        (calc_request id "1 / 0")) in
       body !! "error" = Some (JStr "division by zero")
       /\ body !! "data" = Some (JStr "ERROR: division by zero")).
Proof.
  split; [| split; [| split]].
  - destruct (resp_Error response) as [err |] eqn:Herr.
    + destruct (sendResponse_error _ _ Herr) as [-> _]. split; eauto.
    + destruct (sendResponse_data _ Herr) as [-> _].
      split; intros [x Hx]; discriminate.
  - apply sendResponse_error.
  - intros Herr. apply sendResponse_data, Herr.
  - intros a b Ha Hb Hzero body. subst body.
    apply sendResponse_error.
    unfold processRequest, NewCalcService. cbn [HandleRequest].
    rewrite (CalcProofs.calc_parsed (handlerTime r) (calc_request id "1 / 0")
               "1" "/" "0" [] a b eq_refl Ha Hb).
    rewrite bool_decide_eq_true_2 by (apply CalcProofs.operators_cases; tauto).
    rewrite Hzero. reflexivity.
Qed.

Lemma sendResponse_members_witness :
  (is_Some (division_reply !! "error"))
  /\ division_reply !! "error" = Some (JStr "division by zero")
  /\ division_reply !! "data" = Some (JStr "ERROR: division by zero")
  /\ sendResponse (mkResponse "1" EchoService "ECHO: hi" None 0) !! "data"
     = Some (JStr "ECHO: hi").
Proof.
  pose proof (@sendResponse_members Reference.float_text) as Hmembers.
  destruct (Hmembers (mkResponse "4" CalcService "" (Some "division by zero") 102)
              ∅ readings 8084 "4") as (Hiff & Herr & _ & Hcalc).
  destruct (Hcalc 1%float 0%float eq_refl eq_refl eq_refl) as (Hcalc_err & Hcalc_data).
  split; [apply Hiff; eexists; reflexivity |].
  split; [exact Hcalc_err |].
  split; [exact Hcalc_data |].
  destruct (Hmembers (mkResponse "1" EchoService "ECHO: hi" None 0)
              ∅ readings 8084 "4") as (_ & _ & Hdata & _).
  apply Hdata. reflexivity.
Defined.

End ReplyProofs.

(** ** The stats service *)

Module StatsProofs.
Import Domain GoLib Usecase.

(** C5.  The reply of the stats service to the command POOL is a fixed
    text, whatever the request, the ledger and the clock; the handler
    has no access to the pool, and no snapshot of it is returned. *)
Theorem handlePoolStats_is_placeholder `{JsonEncoder} `{TimeText}
    (stats : gmap ServiceType ServiceStats) (now : Time)
    (id : string) (service : ServiceType) (data clientAddr : string) (ts : Time) :
  StatsService_HandleRequest stats now (mkRequest id service "POOL" data clientAddr ts)
  = (mkResponse "" StatsService "Pool stats not implemented in this version" None now,
     None).
Proof. reflexivity. Qed.

End StatsProofs.

(** ** Parsing a datagram *)

Module ParseProofs.
Import Domain GoLib Usecase UDPServer Scenario.

Section Parse.
Context `{JsonDecoder}.

Lemma parseRequest_no_error data clientAddr uuid now :
  snd (parseRequest data clientAddr uuid now) = None.
Proof. unfold parseRequest. destruct (Unmarshal data); reflexivity. Qed.

(** C7.  A body that does not decode becomes a request whose data is
    the body, whose command is empty and whose id is the generated one;
    a body that decodes gives its command and its data to the request,
    and its id too unless that is empty (an absent member decodes to the
    empty string), in which case the id is the generated one. *)
Theorem parseRequest_tolerant (data clientAddr uuid : string) (now : Time) :
  let request := fst (parseRequest data clientAddr uuid now) in
  (Unmarshal data = None ->
     req_Data request = data /\ req_Command request = "" /\ req_ID request = uuid)
  /\ (forall envelope, Unmarshal data = Some envelope ->
       req_Command request = env_Command envelope
       /\ req_Data request = env_Data envelope
       /\ (env_ID envelope = "" -> req_ID request = uuid)
       /\ (env_ID envelope <> "" -> req_ID request = env_ID envelope)).
Proof.
  intros request. subst request. unfold parseRequest. split.
  - intros ->. done.
  - intros envelope ->. cbn. repeat split.
    + intros ->. reflexivity.
    + intros Hid. apply String.eqb_neq in Hid. rewrite Hid. reflexivity.
Qed.

Lemma updateStats_errors stats tag f stats' :
  (forall st st', f st = Some st' -> Errors st' = Errors st) ->
  updateStats stats tag f = Some stats' ->
  forall t, Errors <$> stats' !! t = Errors <$> stats !! t.
Proof.
  intros Hf. unfold updateStats.
  destruct (stats !! tag) as [st |] eqn:Hst; [| by intros [= <-]].
  destruct (f st) as [st' |] eqn:Hfst; [| discriminate].
  intros [= <-] t. destruct (decide (tag = t)) as [<- | Hne].
  - rewrite lookup_insert_eq, Hst. simpl. f_equal. eauto.
  - by rewrite lookup_insert_ne.
Qed.

Lemma count_received_errors startTime st st' :
  count_received startTime st = Some st' -> Errors st' = Errors st.
Proof. by intros [= <-]. Qed.

Lemma count_processed_errors responseTime st st' :
  count_processed responseTime st = Some st' -> Errors st' = Errors st.
Proof.
  unfold count_processed. destruct (_ =? 0); [discriminate |]. by intros [= <-].
Qed.

(** A call of [handleRequest] that returns wrote one datagram, through
    [sendResponse], and left every error counter as it was. *)
Lemma handleRequest_responds stats service clientAddr data r stats' out :
  handleRequest stats service clientAddr data r = Some (stats', out) ->
  (exists body, out = [BySendResponse clientAddr body])
  /\ (forall tag, Errors <$> stats' !! tag = Errors <$> stats !! tag).
Proof.
  unfold handleRequest.
  destruct (updateStats stats _ _) as [stats1 |] eqn:H1; [| discriminate].
  pose proof (parseRequest_no_error data clientAddr (uuid r) (parseTime r)) as Hnil.
  destruct (parseRequest _ _ _ _) as [request [err |]]; [discriminate |].
  destruct (updateStats stats1 _ _) as [stats2 |] eqn:H2; [| discriminate].
  intros [= <- <-]. split; [eauto |].
  intros tag.
  rewrite (updateStats_errors _ _ _ _ (count_processed_errors _) H2).
  apply (updateStats_errors _ _ _ _ (count_received_errors _) H1).
Qed.

Lemma step_writes_responses h e h' :
  step h e = Some h' ->
  Forall is_response (written h) -> Forall is_response (written h').
Proof.
  destruct e as [job | i | i r | i |]; simpl.
  - unfold receive. destruct (ThreadPool.Submit _ _) as [tp [err |]].
    + destruct (addError _ _); [| discriminate]. by intros [= <-].
    + by intros [= <-].
  - destruct (ThreadPool.worker_receive _ _); [| discriminate]. by intros [= <-].
  - unfold complete.
    destruct (ThreadPool.workers _ !! i) as [[| job] |]; try discriminate.
    destruct (handleRequest _ _ _ _ _) as [[stats' out] |] eqn:Hreq; [| discriminate].
    destruct (ThreadPool.worker_finish _ _); [| discriminate].
    intros [= <-] Hold. simpl.
    apply handleRequest_responds in Hreq as [[body ->] _].
    apply Forall_app. split; [exact Hold |]. by repeat constructor.
  - destruct (ThreadPool.worker_timeout _ _); [| discriminate]. by intros [= <-].
  - by intros [= <-].
Qed.

Lemma run_writes_responses es : forall h h',
  run h es = Some h' ->
  Forall is_response (written h) -> Forall is_response (written h').
Proof.
  induction es as [| e rest IH]; intros h h'; simpl.
  - by intros [= <-].
  - destruct (step h e) as [h1 |] eqn:Hstep; [| discriminate].
    intros Hrun Hold. eapply IH; [exact Hrun |].
    eapply step_writes_responses; eauto.
Qed.

(** C10.  [parseRequest] returns a nil error on every body.  So a call
    of [handleRequest] that returns has written exactly one datagram,
    through [sendResponse], and has left the error counter of every tag
    unchanged; and no datagram a host ever wrote came from
    [sendError]. *)
Theorem parse_failure_unreachable
    (data clientAddr uuid : string) (now : Time)
    (stats stats' : gmap ServiceType ServiceStats) (service : Service)
    (r : Readings) (out : list Written)
    (config : ThreadPoolConfig) (listening : list Service) (h : Host) :
  snd (parseRequest data clientAddr uuid now) = None
  /\ (handleRequest stats service clientAddr data r = Some (stats', out) ->
      (exists body, out = [BySendResponse clientAddr body])
      /\ (forall tag, Errors <$> stats' !! tag = Errors <$> stats !! tag))
  /\ (reachable config listening h -> Forall is_response (written h)).
Proof.
  split; [apply parseRequest_no_error |].
  split; [apply handleRequest_responds |].
  intros (es & _ & Hrun).
  eapply run_writes_responses; [exact Hrun |]. constructor.
Qed.

End Parse.

(** A raw body, an envelope with an id and an envelope without one,
    through the reference decoder. *)
Lemma parseRequest_tolerant_witness :
  let parse data :=
    fst (@parseRequest Reference.json_decoder data "client" "generated-id" 5) in
  (req_Data (parse "hi") = "hi" /\ req_Command (parse "hi") = ""
   /\ req_ID (parse "hi") = "generated-id")
  /\ (req_Command (parse (Reference.envelope_text "1" "ECHO" "hi")) = "ECHO"
      /\ req_Data (parse (Reference.envelope_text "1" "ECHO" "hi")) = "hi"
      /\ req_ID (parse (Reference.envelope_text "1" "ECHO" "hi")) = "1")
  /\ req_ID (parse (Reference.envelope_text "" "UNIX" "")) = "generated-id".
Proof.
  intros parse.
  pose proof (@parseRequest_tolerant Reference.json_decoder) as Hparse.
  split; [| split].
  - destruct (Hparse "hi" "client" "generated-id" 5) as (Hraw & _).
    apply Hraw. reflexivity.
  - destruct (Hparse (Reference.envelope_text "1" "ECHO" "hi") "client" "generated-id" 5)
      as (_ & Henv).
    destruct (Henv (mkEnvelope "1" "ECHO" "hi") eq_refl)
      as (Hcommand & Hdata & _ & Hid).
    split; [exact Hcommand |]. split; [exact Hdata |].
    apply Hid. discriminate.
  - destruct (Hparse (Reference.envelope_text "" "UNIX" "") "client" "generated-id" 5)
      as (_ & Henv).
    destruct (Henv (mkEnvelope "" "UNIX" "") eq_refl) as (_ & _ & Hid & _).
    apply Hid. reflexivity.
Defined.

(** The echo exchange of scenario 1 on the small configuration. *)
Lemma parse_failure_unreachable_witness :
  ((exists body, snd echo_handled = [BySendResponse "client" body])
   /\ (forall tag, Errors <$> fst echo_handled !! tag
                   = Errors <$> ({[ EchoService := ServiceStats_zero ]}
                                  : gmap ServiceType ServiceStats) !! tag))
  /\ Forall is_response (written echo_host).
Proof.
  destruct (@parse_failure_unreachable Reference.json_decoder
              (Reference.envelope_text "1" "" "hi") "client" "generated-id" 101
              {[ EchoService := ServiceStats_zero ]} (fst echo_handled) echo_8081
              readings (snd echo_handled)
              ThreadPool.small_config [echo_8081] echo_host)
    as (_ & Hcall & Hhost).
  split.
  - apply Hcall. vm_compute. reflexivity.
  - apply Hhost. exists echo_exchange. split.
    + by repeat constructor.
    + vm_compute. reflexivity.
Defined.

End ParseProofs.

(** ** The running mean of the response time *)

Module MeanProofs.
Import Domain GoInt GoIntProofs UDPServer.





(** The truncations add up: after 1, 2 and 3 nanoseconds the stored
    mean is 1 and the true mean is 2. *)
Example mean_drifts :
  AvgResponseTime <$> after_latencies [1; 2; 3] ServiceStats_zero = Some 1.
Proof. reflexivity. Qed.

End MeanProofs.

(** ** The chunk-size policy of lab3 *)

Module Lab3Proofs.
Import Domain GoInt GoIntProofs Lab3.

Lemma Milliseconds_bounds d :
  in_int64 d -> - 9223372036855 <= Milliseconds d <= 9223372036855.
Proof.
  unfold in_int64, min_int64, max_int64, Milliseconds. intros Hd.
  destruct (Z.le_gt_cases 0 d) as [Hpos | Hneg].
  - rewrite Z.quot_div_nonneg by lia.
    assert (0 <= d `div` 1000000) by (apply Z.div_pos; lia).
    assert (d `div` 1000000 < 9223372036855)
      by (apply Z.div_lt_upper_bound; lia).
    lia.
  - replace d with (- - d) by lia.
    rewrite Z.quot_opp_l by lia. rewrite Z.quot_div_nonneg by lia.
    assert (0 <= (- d) `div` 1000000) by (apply Z.div_pos; lia).
    assert ((- d) `div` 1000000 < 9223372036855)
      by (apply Z.div_lt_upper_bound; lia).
    lia.
Qed.

(** The select multiplexer clamps the product of the budget in
    milliseconds and 1048 bytes per millisecond. *)
Lemma calculateOptimalChunkSize_clamp ping :
  calculateOptimalChunkSize ping
  = clamp (Milliseconds (mul64 ping 10) * 1048) MinChunkSize MaxChunkSize.
Proof.
  unfold calculateOptimalChunkSize, clamp.
  change (Z.quot (1024 * 1024) 1000) with 1048.
  pose proof (Milliseconds_bounds (mul64 ping 10) (wrap64_range _)) as Hms.
  rewrite wrap64_small
    by (unfold in_int64, min_int64, max_int64; lia).
  unfold MinChunkSize, MaxChunkSize.
  set (x := Milliseconds (mul64 ping 10) * 1048) in *. cbv zeta.
  destruct (Z.ltb_spec x 512) as [Hlow | Hlow].
  - change (8192 <? 512) with false. cbv iota. lia.
  - destruct (Z.ltb_spec 8192 x); lia.
Qed.

(** C9, as stated, fails for the function that takes a bandwidth: with
    a ping of one millisecond and a bandwidth of 8 it returns 1, which
    is below [MinChunkSize]. *)
Lemma CalculateOptimalChunkSize_below_minimum :
  CalculateOptimalChunkSize Millisecond 8 = 1
  /\ ~ (MinChunkSize <= CalculateOptimalChunkSize Millisecond 8 <= MaxChunkSize).
Proof.
  assert (Hone : CalculateOptimalChunkSize Millisecond 8 = 1) by reflexivity.
  split; [exact Hone |]. rewrite Hone. unfold MinChunkSize. lia.
Qed.

(** C9, amended.  The chunk size of the select multiplexer is the
    clamp of (ping * 10 in milliseconds) * 1048 to [512, 8192] and lies
    in that interval for every ping.  The function that takes a
    bandwidth returns the smaller of ping * bandwidth / 8 / 1000000 and
    512: its result never exceeds 512, the lower end of that
    interval. *)
Theorem chunk_size_policy (ping bandwidth : Z) :
  (in_int64 (ping * 10) ->
     calculateOptimalChunkSize ping
     = clamp (Z.quot (ping * 10) 1000000 * 1048) MinChunkSize MaxChunkSize)
  /\ MinChunkSize <= calculateOptimalChunkSize ping <= MaxChunkSize
  /\ (in_int64 (ping * bandwidth) ->
     CalculateOptimalChunkSize ping bandwidth
     = Z.min (Z.quot (Z.quot (ping * bandwidth) 8) 1000000) 512)
  /\ CalculateOptimalChunkSize ping bandwidth <= MinChunkSize.
Proof.
  split; [| split; [| split]].
  - intros Hrange. rewrite calculateOptimalChunkSize_clamp.
    unfold mul64. rewrite wrap64_small by exact Hrange. reflexivity.
  - rewrite calculateOptimalChunkSize_clamp.
    unfold clamp, MinChunkSize, MaxChunkSize. lia.
  - intros Hrange. unfold CalculateOptimalChunkSize, div64, mul64, Millisecond.
    rewrite (wrap64_small (ping * bandwidth)) by exact Hrange.
    pose proof (quot_bounds (ping * bandwidth) 8 ltac:(lia)) as H8.
    pose proof (quot_bounds (Z.quot (ping * bandwidth) 8) 1000000 ltac:(lia)) as Hms.
    unfold in_int64, min_int64, max_int64 in Hrange.
    rewrite (wrap64_small (Z.quot (ping * bandwidth) 8))
      by (unfold in_int64, min_int64, max_int64; lia).
    rewrite wrap64_small by (unfold in_int64, min_int64, max_int64; lia).
    destruct (Z.ltb_spec 512 (Z.quot (Z.quot (ping * bandwidth) 8) 1000000)); lia.
  - unfold CalculateOptimalChunkSize, MinChunkSize.
    destruct (Z.ltb_spec 512 (div64 (div64 (mul64 ping bandwidth) 8) Millisecond)); lia.
Qed.

(** The default ping timeout of thirty seconds, and a bandwidth of 8. *)
Lemma chunk_size_policy_witness :
  calculateOptimalChunkSize (30 * Second) = 8192
  /\ CalculateOptimalChunkSize (30 * Second) 8 = 512.
Proof.
  destruct (chunk_size_policy (30 * Second) 8) as (Hselect & _ & Hcap & _).
  split.
  - rewrite Hselect; [reflexivity |].
    unfold in_int64, min_int64, max_int64, Second. lia.
  - rewrite Hcap; [reflexivity |].
    unfold in_int64, min_int64, max_int64, Second. lia.
Defined.

End Lab3Proofs.

(** ** The registry: lookups after registration *)

Module RegistryLookupProofs.
Import Domain Registry RegistryListing Scenario.

#[local] Set Warnings "-clear-no-such-hyp".

(** X1.  After a registration that returned nil, the service is found
    under its tag by [GetService], its port by [GetServicePort], and
    under its port by [GetServiceByPort]; the lookup of any other tag is
    what it was before. *)
Theorem registered_service_is_found
    (sr sr' : ServiceRegistry) (s : Service) (t : ServiceType) :
  RegisterService sr s = (sr', None) ->
  GetService sr' (Name s) = (Some s, None)
  /\ GetServicePort sr' (Name s) = (Port s, None)
  /\ GetServiceByPort sr' (Port s) = (Some s, None)
  /\ (t <> Name s ->
      GetService sr' t = GetService sr t
      /\ GetServicePort sr' t = GetServicePort sr t).
Proof.
  intros Hreg.
  apply RegistryProofs.RegisterService_ok in Hreg as (_ & _ & Hs & Hp).
  unfold GetService, GetServicePort, GetServiceByPort.
  rewrite Hs, Hp. rewrite !lookup_insert_eq.
  split; [reflexivity |]. split; [reflexivity |]. split; [reflexivity |].
  intros Hne. by rewrite !lookup_insert_ne.
Qed.

Lemma registered_service_is_found_witness :
  GetService with_echo EchoService = (Some echo_8081, None)
  /\ GetServicePort with_echo EchoService = (8081, None)
  /\ GetServiceByPort with_echo 8081 = (Some echo_8081, None)
  /\ GetService with_echo TimeService = (None, Some ErrServiceNotFound).
Proof.
  destruct (registered_service_is_found NewServiceRegistry with_echo echo_8081
              TimeService eq_refl) as (Htag & Hport & Hby & Hother).
  split; [exact Htag |]. split; [exact Hport |]. split; [exact Hby |].
  destruct Hother as [-> _]; [discriminate | reflexivity].
Defined.

Lemma indices_agree_empty : indices_agree NewServiceRegistry.
Proof.
  split; simpl.
  - intros t s Hs. by rewrite lookup_empty in Hs.
  - intros p t Hp. by rewrite lookup_empty in Hp.
Qed.

Lemma RegisterService_indices sr s sr' e :
  indices_agree sr -> RegisterService sr s = (sr', e) -> indices_agree sr'.
Proof.
  intros [Htags Hports] Hreg. destruct e as [e |].
  - by apply RegistryProofs.RegisterService_error in Hreg as ->.
  - apply RegistryProofs.RegisterService_ok in Hreg as (Hfree & Hpfree & Hs & Hp).
    split.
    + intros t x. rewrite Hs, Hp. intros Hx.
      apply lookup_insert_Some in Hx as [[<- <-] | [Hne Hx]].
      * split; [reflexivity |]. apply lookup_insert_eq.
      * destruct (Htags t x Hx) as [Hname Hback]. split; [exact Hname |].
        rewrite lookup_insert_ne; [exact Hback |].
        intros Heq. rewrite Heq in Hpfree. congruence.
    + intros p t. rewrite Hs, Hp. intros Hx.
      apply lookup_insert_Some in Hx as [[<- <-] | [Hne Hx]].
      * exists s. split; [apply lookup_insert_eq | reflexivity].
      * destruct (Hports p t Hx) as (x & Hx' & Hport). exists x.
        split; [| exact Hport].
        rewrite lookup_insert_ne; [exact Hx' |].
        intros Heq. rewrite <- Heq in Hx'. congruence.
Qed.

Lemma register_all_indices calls : forall sr,
  indices_agree sr -> indices_agree (fst (register_all sr calls)).
Proof.
  induction calls as [| s rest IH]; intros sr Hok; simpl; [exact Hok |].
  destruct (RegisterService sr s) as [sr1 [e |]] eqn:Hreg.
  - apply IH. eapply RegisterService_indices; eauto.
  - specialize (IH sr1 (RegisterService_indices _ _ _ _ Hok Hreg)).
    destruct (register_all sr1 rest) as [sr2 ok]. exact IH.
Qed.

(** X2.  In every registry built by [RegisterService] from the empty
    one, a lookup by port that returns a nil error returns a service,
    that service is bound to the port asked for, and [GetService] finds
    the same service under its tag; and a service found under a tag
    carries that tag and is found under its port. *)
Theorem lookups_agree (sr : ServiceRegistry) (p : Z) (t : ServiceType)
    (found : option Service) (s : Service) :
  built sr ->
  (GetServiceByPort sr p = (found, None) ->
     exists x, found = Some x /\ Port x = p
               /\ GetService sr (Name x) = (Some x, None))
  /\ (GetService sr t = (Some s, None) ->
      Name s = t /\ GetServiceByPort sr (Port s) = (Some s, None)).
Proof.
  intros [calls <-].
  pose proof (register_all_indices calls _ indices_agree_empty) as [Htags Hports].
  set (sr := fst (register_all NewServiceRegistry calls)) in *.
  unfold GetServiceByPort, GetService. split.
  - destruct (ports sr !! p) as [t' |] eqn:Hp; [| discriminate].
    intros [= <-]. destruct (Hports p t' Hp) as (x & Hx & Hport).
    exists x. split; [exact Hx |]. split; [exact Hport |].
    destruct (Htags t' x Hx) as [-> _]. by rewrite Hx.
  - destruct (services sr !! t) as [x |] eqn:Hx; [| discriminate].
    intros [= ->]. destruct (Htags t s Hx) as [Hname Hback].
    split; [exact Hname |]. by rewrite Hback, Hx.
Qed.

Lemma lookups_agree_witness :
  (exists x, Some echo_8081 = Some x /\ Port x = 8081
             /\ GetService with_echo (Name x) = (Some x, None))
  /\ Name echo_8081 = EchoService
  /\ GetServiceByPort with_echo (Port echo_8081) = (Some echo_8081, None).
Proof.
  destruct (lookups_agree with_echo 8081 EchoService (Some echo_8081) echo_8081)
    as (Hport & Htag).
  - exists [echo_8081]. reflexivity.
  - split; [apply Hport; reflexivity |]. apply Htag. reflexivity.
Defined.

Lemma register_all_tags calls : forall sr sr' ok,
  register_all sr calls = (sr', ok) ->
  dom (services sr') = dom (services sr) ∪ list_to_set (Name <$> ok).
Proof.
  induction calls as [| s rest IH]; intros sr sr' ok; simpl.
  - intros [= <- <-]. simpl. set_solver.
  - destruct (RegisterService sr s) as [sr1 [e |]] eqn:Hreg.
    + apply RegistryProofs.RegisterService_error in Hreg as ->. apply IH.
    + destruct (register_all sr1 rest) as [sr2 ok'] eqn:Hrest.
      intros [= <- <-]. rewrite (IH _ _ _ Hrest).
      apply RegistryProofs.RegisterService_ok in Hreg as (_ & _ & -> & _).
      rewrite dom_insert_L, fmap_cons. simpl. set_solver.
Qed.

(** X3.  After any run of registrations from the empty registry,
    [ListServices] lists the tags of the services whose registration
    succeeded, each once, and nothing else. *)
Theorem ListServices_lists_registered (calls : list Service) :
  let sr := fst (register_all NewServiceRegistry calls) in
  NoDup (ListServices sr)
  /\ ListServices sr ≡ₚ Name <$> registered calls
  /\ (forall t, t ∈ ListServices sr <-> fst (GetService sr t) <> None).
Proof.
  intros sr. subst sr. unfold registered.
  destruct (register_all NewServiceRegistry calls) as [sr ok] eqn:Hrun. simpl.
  assert (Hnodup : NoDup (ListServices sr)) by apply NoDup_fst_map_to_list.
  assert (Hin : forall t, t ∈ ListServices sr <-> t ∈ dom (services sr)).
  { intros t. unfold ListServices. rewrite elem_of_dom.
    rewrite list_elem_of_fmap. split.
    - intros ([t' x] & -> & Hx). apply elem_of_map_to_list in Hx. eauto.
    - intros [x Hx]. exists (t, x). split; [reflexivity |].
      by apply elem_of_map_to_list. }
  split; [exact Hnodup |]. split.
  - destruct (RegistryProofs.register_all_fresh _ _ _ _ Hrun) as (_ & Htags & _).
    apply NoDup_Permutation; [exact Hnodup | exact Htags |].
    intros t. rewrite Hin, (register_all_tags _ _ _ _ Hrun). simpl.
    rewrite dom_empty_L. set_solver.
  - intros t. rewrite Hin, elem_of_dom. unfold GetService.
    destruct (services sr !! t) as [x |]; simpl.
    + split; [discriminate | eauto].
    + split; [intros [x Hx]; discriminate | done].
Qed.

End RegistryLookupProofs.

(** ** The worker pool: what its counters count *)

Module PoolAccountingProofs.
Import Domain GoInt ThreadPool PoolHistory.

Lemma wrap32_small z : - 2 ^ 31 <= z < 2 ^ 31 -> wrap32 z = z.
Proof.
  unfold wrap32, wrap. intros Hz. rewrite Z.mod_small; lia.
Qed.

Section Accounting.
Context {Task : Type}.
Implicit Types (tp : ThreadPool Task) (ws : list (Worker Task)).



Lemma running_tasks_app ws1 ws2 :
  running_tasks (ws1 ++ ws2) = running_tasks ws1 ++ running_tasks ws2.
Proof.
  induction ws1 as [| [| task] rest IH]; simpl; [done | done |]. by rewrite IH.
Qed.

Lemma running_tasks_receive ws : forall i task,
  ws !! i = Some Waiting ->
  running_tasks (<[i := Running task]> ws) ≡ₚ task :: running_tasks ws.
Proof.
  induction ws as [| w rest IH]; intros [| i] task Hi; simpl in *; try done.
  - by injection Hi as ->.
  - destruct w as [| other]; [by apply IH |].
    rewrite IH by done. apply perm_swap.
Qed.

Lemma running_tasks_finish ws : forall i task,
  ws !! i = Some (Running task) ->
  running_tasks ws ≡ₚ task :: running_tasks (<[i := Waiting]> ws).
Proof.
  induction ws as [| w rest IH]; intros [| i] task Hi; simpl in *; try done.
  - by injection Hi as ->.
  - destruct w as [| other]; [by apply IH |].
    rewrite (IH i task) by done. apply perm_swap.
Qed.

Lemma running_tasks_exit ws : forall i,
  ws !! i = Some Waiting -> running_tasks (delete i ws) = running_tasks ws.
Proof.
  induction ws as [| w rest IH]; intros [| i] Hi; simpl in *; try done.
  - by injection Hi as ->.
  - destruct w; simpl; by rewrite IH.
Qed.

Lemma running_tasks_length ws :
  (length (running_tasks ws) <= length ws)%nat.
Proof.
  induction ws as [| [| task] rest IH]; simpl; lia.
Qed.

Lemma addWorker_kept config tp :
  sane config -> kept config tp -> kept config (addWorker tp).
Proof.
  intros (Hmin & Hmax & Hqs & Hsmall) [(Emin & Emax & Eqs) Hacc].
  unfold addWorker. rewrite wrap32_small by lia.
  destruct (Z.leb_spec (maxWorkers tp) (currentWorkers tp)); [done |].
  destruct Hacc as (Ha & Hq & Hw & Hlen & Hcur & Hwq).
  unfold AddInt32. rewrite wrap32_small by lia.
  split; [done |]. unfold accounted, sentinels in *. simpl.
  rewrite running_tasks_app, !length_app. simpl. rewrite Nat.add_0_r.
  repeat split; lia.
Qed.

Lemma checkAndExpand_kept config tp :
  sane config -> kept config tp -> kept config (checkAndExpand tp).
Proof.
  intros Hsane Hkept. unfold checkAndExpand.
  destruct (_ <=? _); [done |].
  destruct (PrimFloat.ltb _ _); [by apply addWorker_kept | done].
Qed.

Lemma Submit_kept config tp task :
  sane config -> kept config tp -> kept config (fst (Submit tp task)).
Proof.
  intros Hsane Hkept. unfold Submit.
  destruct (Z.ltb_spec (Z.of_nat (length (taskQueue tp))) (queueSize tp));
    [| done].
  simpl. apply checkAndExpand_kept; [done |].
  destruct Hsane as (Hmin & Hmax & Hqs & Hsmall).
  destruct Hkept as [(Emin & Emax & Eqs) (Ha & Hq & Hw & Hlen & Hcur & Hwq)].
  pose proof (running_tasks_length (workers tp)) as Hrun.
  assert (Hs : 0 <= sentinels tp <= maxWorkers tp + 1)
    by (unfold sentinels; destruct (managerBlocked tp); lia).
  split; [done |]. unfold accounted, sentinels in *. simpl.
  unfold AddInt32. rewrite wrap32_small by lia.
  rewrite length_app. simpl. repeat split; lia.
Qed.

Lemma worker_receive_kept config tp i tp' :
  sane config -> kept config tp -> worker_receive i tp = Some tp' ->
  kept config tp'.
Proof.
  intros (Hmin & Hmax & Hqs & Hsmall)
         [(Emin & Emax & Eqs) (Ha & Hq & Hw & Hlen & Hcur & Hwq)].
  unfold worker_receive.
  destruct (workers tp !! i) as [[| other] |] eqn:Hi; try discriminate.
  destruct (taskQueue tp) as [| task rest] eqn:Hqueue; [discriminate |].
  intros [= <-].
  pose proof (running_tasks_length (workers tp)) as Hrun.
  pose proof (Permutation_length (running_tasks_receive _ _ task Hi)) as Hperm.
  assert (Hs : 0 <= sentinels tp <= maxWorkers tp + 1)
    by (unfold sentinels; destruct (managerBlocked tp); lia).
  split; [done |]. unfold accounted, sentinels in *. simpl in *.
  unfold AddInt32. rewrite wrap32_small by lia.
  rewrite length_insert, Hperm. simpl. repeat split; lia.
Qed.

Lemma worker_finish_kept config tp i tp' :
  sane config -> kept config tp -> worker_finish i tp = Some tp' ->
  kept config tp'.
Proof.
  intros (Hmin & Hmax & Hqs & Hsmall)
         [(Emin & Emax & Eqs) (Ha & Hq & Hw & Hlen & Hcur & Hwq)].
  unfold worker_finish.
  destruct (workers tp !! i) as [[| task] |] eqn:Hi; try discriminate.
  intros [= <-].
  pose proof (running_tasks_length (workers tp)) as Hrun.
  pose proof (Permutation_length (running_tasks_finish _ _ task Hi)) as Hperm.
  assert (Hs : 0 <= sentinels tp <= maxWorkers tp + 1)
    by (unfold sentinels; destruct (managerBlocked tp); lia).
  split; [done |]. unfold accounted, sentinels in *. simpl in *.
  unfold AddInt32. rewrite !wrap32_small by lia.
  rewrite length_insert. repeat split; lia.
Qed.

Lemma worker_timeout_kept config tp i tp' :
  sane config -> kept config tp -> worker_timeout i tp = Some tp' ->
  kept config tp'.
Proof.
  intros (Hmin & Hmax & Hqs & Hsmall) Hkept.
  pose proof Hkept as [(Emin & Emax & Eqs) (Ha & Hq & Hw & Hlen & Hcur & Hwq)].
  unfold worker_timeout.
  destruct (workers tp !! i) as [[| task] |] eqn:Hi; try discriminate.
  rewrite wrap32_small by lia.
  destruct (Z.ltb_spec (minWorkers tp) (currentWorkers tp));
    [| by intros [= <-]].
  intros [= <-].
  pose proof (lookup_lt_Some _ _ _ Hi) as Hlt.
  split; [done |]. unfold accounted, sentinels in *. simpl in *.
  unfold AddInt32. rewrite wrap32_small by lia.
  rewrite running_tasks_exit by done. rewrite length_delete by eauto.
  repeat split; lia.
Qed.

(** A tick of the manager that decrements the counter adds a sentinel. *)
Lemma optimize_kept config tp :
  sane config -> kept config tp ->
  kept config (optimize tp)
  /\ sentinels (optimize tp)
     = sentinels tp
       + (if currentWorkers (optimize tp) =? currentWorkers tp then 0 else 1).
Proof.
  intros (Hmin & Hmax & Hqs & Hsmall) Hkept.
  pose proof Hkept as [(Emin & Emax & Eqs) (Ha & Hq & Hw & Hlen & Hcur & Hwq)].
  unfold optimize.
  destruct (managerBlocked tp) eqn:Hblocked.
  { rewrite Z.eqb_refl. split; [done | lia]. }
  rewrite wrap32_small by lia.
  destruct (Z.ltb_spec (minWorkers tp) (currentWorkers tp)); simpl;
    [| rewrite Z.eqb_refl; split; [done | lia]].
  destruct (activeWorkers tp <? Z.quot (currentWorkers tp) 2); simpl;
    [| rewrite Z.eqb_refl; split; [done | lia]].
  destruct (queuedTasks tp =? 0); simpl;
    [| rewrite Z.eqb_refl; split; [done | lia]].
  unfold AddInt32. rewrite wrap32_small by lia.
  destruct (Z.eqb_spec (currentWorkers tp + -1) (currentWorkers tp)); [lia |].
  unfold kept, configured, accounted, sentinels in *. simpl. rewrite Hblocked in *.
  destruct (Z.leb_spec (maxWorkers tp) (workerQueue tp)); repeat split; lia.
Qed.

Lemma step_kept config tp s tp' :
  sane config -> kept config tp -> step tp s = Some tp' -> kept config tp'.
Proof.
  intros Hsane Hkept. destruct s as [task | i | i | i |]; simpl.
  - intros [= <-]. by apply Submit_kept.
  - by apply worker_receive_kept.
  - by apply worker_finish_kept.
  - by apply worker_timeout_kept.
  - intros [= <-]. by apply optimize_kept.
Qed.

Lemma run_kept config ss : forall tp tp',
  sane config -> kept config tp -> run tp ss = Some tp' -> kept config tp'.
Proof.
  induction ss as [| s rest IH]; intros tp tp' Hsane Hkept; simpl.
  - by intros [= <-].
  - destruct (step tp s) as [tp1 |] eqn:Hstep; [| discriminate].
    apply IH; [done |]. by eapply step_kept.
Qed.

Lemma Start_kept config :
  sane config -> kept config (Start (NewThreadPool config) : ThreadPool Task).
Proof.
  intros Hsane. pose proof Hsane as (Hmin & Hmax & Hqs & Hsmall).
  unfold Start. generalize (Z.to_nat (minWorkers (NewThreadPool config : ThreadPool Task))).
  intros n. induction n as [| n IH].
  - simpl. split; [done |]. unfold accounted, sentinels. simpl. lia.
  - rewrite Nat.iter_succ. by apply addWorker_kept.
Qed.


End Accounting.



Section Histories.
Context {Task : Type}.
Implicit Types (tp : ThreadPool Task) (ws : list (Worker Task)).

Lemma addWorker_queue tp :
  taskQueue (addWorker tp) = taskQueue tp
  /\ running_tasks (workers (addWorker tp)) = running_tasks (workers tp)
  /\ completedTasks (addWorker tp) = completedTasks tp.
Proof.
  unfold addWorker. destruct (_ <=? _); [done |]. simpl.
  rewrite running_tasks_app. simpl. by rewrite app_nil_r.
Qed.

Lemma checkAndExpand_queue tp :
  taskQueue (checkAndExpand tp) = taskQueue tp
  /\ running_tasks (workers (checkAndExpand tp)) = running_tasks (workers tp)
  /\ completedTasks (checkAndExpand tp) = completedTasks tp.
Proof.
  unfold checkAndExpand. destruct (_ <=? _); [done |].
  destruct (PrimFloat.ltb _ _); [apply addWorker_queue | done].
Qed.

Lemma optimize_queue tp :
  taskQueue (optimize tp) = taskQueue tp
  /\ workers (optimize tp) = workers tp
  /\ completedTasks (optimize tp) = completedTasks tp.
Proof.
  unfold optimize. destruct (managerBlocked tp); [done |].
  destruct (_ && _); done.
Qed.

(** The ledger of one step: what enters the queue is what [Submit]
    accepted, what leaves it is what a worker received, from the head;
    a task enters the set of running tasks when it is received and
    leaves it when it ends. *)
Lemma step_history tp s tp' (h : History Task) :
  step tp s = Some tp' ->
  taskQueue tp ++ accepted (record_step tp s no_history)
    = picked (record_step tp s no_history) ++ taskQueue tp'
  /\ running_tasks (workers tp) ++ picked (record_step tp s no_history)
     ≡ₚ finished (record_step tp s no_history) ++ running_tasks (workers tp')
  /\ accepted (record_step tp s h) = accepted (record_step tp s no_history) ++ accepted h
  /\ picked (record_step tp s h) = picked (record_step tp s no_history) ++ picked h
  /\ finished (record_step tp s h)
     = finished (record_step tp s no_history) ++ finished h.
Proof.
  destruct s as [task | i | i | i |]; simpl.
  - intros [= <-]. unfold Submit.
    destruct (_ <? _); simpl.
    + destruct (checkAndExpand_queue
                  (set_counters tp (taskQueue tp ++ [task]) (workers tp)
                     (activeWorkers tp) (currentWorkers tp) (completedTasks tp)
                     (AddInt32 (queuedTasks tp) 1))) as (-> & -> & _).
      simpl. by rewrite app_nil_r.
    + by rewrite !app_nil_r.
  - unfold worker_receive.
    destruct (workers tp !! i) as [[| other] |] eqn:Hi; try discriminate.
    destruct (taskQueue tp) as [| task rest]; [discriminate |].
    intros [= <-]. simpl. rewrite !app_nil_r.
    split; [done |]. split; [| done].
    rewrite running_tasks_receive by done.
    by rewrite <- Permutation_middle, app_nil_r.
  - unfold worker_finish.
    destruct (workers tp !! i) as [[| task] |] eqn:Hi; try discriminate.
    intros [= <-]. simpl. rewrite !app_nil_r. split; [done |]. split; [| done].
    by apply running_tasks_finish.
  - unfold worker_timeout.
    destruct (workers tp !! i) as [[| task] |] eqn:Hi; try discriminate.
    destruct (_ <? _); intros [= <-]; simpl; rewrite !app_nil_r;
      [by rewrite running_tasks_exit | done].
  - intros [= <-]. destruct (optimize_queue tp) as (-> & -> & _).
    destruct (_ =? _); simpl; by rewrite !app_nil_r.
Qed.

Lemma run_history ss : forall tp tp',
  run tp ss = Some tp' ->
  taskQueue tp ++ accepted (history tp ss) = picked (history tp ss) ++ taskQueue tp'
  /\ running_tasks (workers tp) ++ picked (history tp ss)
     ≡ₚ finished (history tp ss) ++ running_tasks (workers tp').
Proof.
  induction ss as [| s rest IH]; intros tp tp'; simpl.
  - intros [= <-]. simpl. by rewrite !app_nil_r.
  - destruct (step tp s) as [tp1 |] eqn:Hstep; [| discriminate].
    intros Hrun. destruct (IH _ _ Hrun) as [Hqueue Hrunning].
    destruct (step_history tp s tp1 (history tp1 rest) Hstep)
      as (Hq1 & Hr1 & -> & -> & ->).
    split.
    + rewrite app_assoc, Hq1, <- !app_assoc. by rewrite Hqueue.
    + transitivity ((running_tasks (workers tp)
                       ++ picked (record_step tp s no_history))
                      ++ picked (history tp1 rest));
        [by rewrite app_assoc |].
      rewrite Hr1.
      transitivity (finished (record_step tp s no_history)
                      ++ (running_tasks (workers tp1) ++ picked (history tp1 rest)));
        [by rewrite app_assoc |].
      rewrite Hrunning. by rewrite app_assoc.
Qed.

(** X6.  In every run of a started pool the tasks leave the queue in
    the order [Submit] accepted them: the accepted tasks are the tasks
    the workers received, in that order, followed by the queue.  No
    accepted task is lost or run twice: the received tasks are, up to
    order, the tasks that ended and the tasks being run. *)
Theorem tasks_first_in_first_out
    (config : ThreadPoolConfig) (ss : list (Step Task)) tp :
  run (Start (NewThreadPool config)) ss = Some tp ->
  let h := history (Start (NewThreadPool config)) ss in
  accepted h = picked h ++ taskQueue tp
  /\ picked h ≡ₚ finished h ++ running_tasks (workers tp).
Proof.
  intros Hrun h. subst h.
  destruct (run_history ss _ _ Hrun) as [Hqueue Hrunning].
  assert (Hfresh : forall n (tp0 : ThreadPool Task),
            taskQueue (Nat.iter n addWorker tp0) = taskQueue tp0
            /\ running_tasks (workers (Nat.iter n addWorker tp0))
               = running_tasks (workers tp0)).
  { induction n as [| n IH]; intros tp0; [done |].
    rewrite Nat.iter_succ. destruct (addWorker_queue (Nat.iter n addWorker tp0))
      as (-> & -> & _). apply IH. }
  unfold Start in *.
  destruct (Hfresh (Z.to_nat (minWorkers (NewThreadPool config : ThreadPool Task)))
              (NewThreadPool config)) as [Hq Hr].
  rewrite Hq in Hqueue. rewrite Hr in Hrunning. simpl in *. done.
Qed.

Lemma run_shrinks config ss : forall tp tp',
  sane config -> kept config tp -> run tp ss = Some tp' ->
  sentinels tp' = sentinels tp + Z.of_nat (shrinks (history tp ss)).
Proof.
  induction ss as [| s rest IH]; intros tp tp' Hsane Hkept; simpl.
  - intros [= <-]. simpl. lia.
  - destruct (step tp s) as [tp1 |] eqn:Hstep; [| discriminate].
    intros Hrun. rewrite (IH tp1 tp' Hsane (step_kept _ _ _ _ Hsane Hkept Hstep) Hrun).
    destruct s as [task | i | i | i |]; simpl in *.
    + injection Hstep as <-. unfold Submit.
      destruct (_ <? _); simpl; [| done].
      assert (Hsame : forall x : ThreadPool Task,
                sentinels (checkAndExpand x) = sentinels x).
      { intros x. unfold checkAndExpand, addWorker.
        repeat (destruct (_ <=? _) || destruct (PrimFloat.ltb _ _)); done. }
      by rewrite Hsame.
    + unfold worker_receive in Hstep.
      destruct (workers tp !! i) as [[| other] |]; try discriminate.
      destruct (taskQueue tp); [discriminate |]. by injection Hstep as <-.
    + unfold worker_finish in Hstep.
      destruct (workers tp !! i) as [[| task] |]; try discriminate.
      by injection Hstep as <-.
    + unfold worker_timeout in Hstep.
      destruct (workers tp !! i) as [[| task] |]; try discriminate.
      destruct (_ <? _); by injection Hstep as <-.
    + injection Hstep as <-.
      destruct (optimize_kept config tp Hsane Hkept) as [_ ->].
      destruct (_ =? _); simpl; lia.
Qed.

(** X7.  [optimize] can shrink the pool only [maxWorkers + 1] times.
    Each tick on which it decrements [currentWorkers] puts a sentinel on
    [workerQueue], which nothing ever takes off; when the buffer is full
    the manager blocks in the send, and from then on a tick changes
    nothing. *)
Theorem optimize_shrinks_bounded
    (config : ThreadPoolConfig) (ss : list (Step Task)) tp :
  sane config ->
  run (Start (NewThreadPool config)) ss = Some tp ->
  Z.of_nat (shrinks (history (Start (NewThreadPool config)) ss)) = sentinels tp
  /\ sentinels tp <= cfg_MaxWorkers config + 1
  /\ (managerBlocked tp = true -> optimize tp = tp).
Proof.
  intros Hsane Hrun.
  pose proof (@Start_kept Task config Hsane) as Hstart.
  pose proof (run_kept config ss _ _ Hsane Hstart Hrun)
    as [(_ & Emax & _) (_ & _ & _ & _ & _ & Hwq)].
  pose proof (run_shrinks config ss _ _ Hsane Hstart Hrun) as Hcount.
  assert (Hzero : sentinels (Start (NewThreadPool config) : ThreadPool Task) = 0).
  { unfold Start.
    generalize (Z.to_nat (minWorkers (NewThreadPool config : ThreadPool Task))).
    intros n. induction n as [| n IH]; [done |].
    rewrite Nat.iter_succ. unfold addWorker at 1.
    destruct (_ <=? _); [exact IH | exact IH]. }
  rewrite Hzero in Hcount. split; [lia |]. split.
  - unfold sentinels. destruct (managerBlocked tp); lia.
  - intros Hblocked. unfold optimize. by rewrite Hblocked.
Qed.

End Histories.

Lemma tasks_first_in_first_out_witness :
  let h := history (Start (NewThreadPool small_config)) fifo_trace in
  accepted h = [7; 8]%nat /\ picked h = [7; 8]%nat /\ finished h = [7%nat].
Proof.
  destruct (@tasks_first_in_first_out nat small_config fifo_trace
              (default (Start (NewThreadPool small_config))
                 (run (Start (NewThreadPool small_config)) fifo_trace)))
    as [Hfifo Honce]; [vm_compute; reflexivity |].
  cbv zeta in *. vm_compute in Hfifo. vm_compute. done.
Defined.

Lemma optimize_shrinks_bounded_witness :
  shrinks (history (Start (NewThreadPool small_config)) small_trace) = 1%nat
  /\ sentinels (default (Start (NewThreadPool small_config))
                 (run (Start (NewThreadPool small_config)) small_trace)) <= 3.
Proof.
  destruct (@optimize_shrinks_bounded nat small_config small_trace
              (default (Start (NewThreadPool small_config))
                 (run (Start (NewThreadPool small_config)) small_trace)))
    as (Hcount & Hbound & _).
  - unfold sane. simpl. lia.
  - vm_compute. reflexivity.
  - split; [vm_compute; reflexivity | exact Hbound].
Defined.

End PoolAccountingProofs.

(** ** The datagram host: one request from end to end *)

Module HostProofs.
Import Domain GoInt GoLib Usecase UDPServer Scenario Replies.

Section Host.
Context `{JsonDecoder}.

Lemma updateStats_record stats tag f st st' :
  stats !! tag = Some st -> f st = Some st' ->
  updateStats stats tag f = Some (<[tag := st']> stats).
Proof. intros Hst Hf. unfold updateStats. by rewrite Hst, Hf. Qed.

Lemma updateStats_missing stats tag f :
  stats !! tag = None -> updateStats stats tag f = Some stats.
Proof. intros Hst. unfold updateStats. by rewrite Hst. Qed.

(** X8.  One call of [handleRequest] for a tag that has a record counts
    one request received and one processed for that tag, stamps the
    record with the start time, leaves its error counter alone, also
    when the handler failed, and touches no other tag.  For a tag
    without a record the ledger is unchanged.  In both cases one reply
    is written. *)
Theorem handleRequest_counts
    (stats : gmap ServiceType ServiceStats) (service : Service)
    (clientAddr data : string) (r : Readings) (st : ServiceStats) :
  (stats !! Name service = Some st ->
   0 <= RequestsReceived st < max_int64 ->
   0 <= RequestsProcessed st < max_int64 ->
   exists stats' st' body,
     handleRequest stats service clientAddr data r
       = Some (stats', [BySendResponse clientAddr body])
     /\ stats' !! Name service = Some st'
     /\ RequestsReceived st' = RequestsReceived st + 1
     /\ RequestsProcessed st' = RequestsProcessed st + 1
     /\ Errors st' = Errors st
     /\ LastRequest st' = startTime r
     /\ (forall tag, tag <> Name service -> stats' !! tag = stats !! tag))
  /\ (stats !! Name service = None ->
      exists body,
        handleRequest stats service clientAddr data r
          = Some (stats, [BySendResponse clientAddr body])).
Proof.
  split.
  - intros Hst Hrec Hproc. unfold handleRequest.
    rewrite (updateStats_record stats (Name service)
               (count_received (startTime r)) st _ Hst eq_refl).
    pose proof (ParseProofs.parseRequest_no_error data clientAddr (uuid r) (parseTime r))
      as Hnil.
    destruct (parseRequest _ _ _ _) as [request [err |]]; [discriminate |].
    unfold max_int64 in *.
    assert (Hcount : count_processed (responseTime r)
                       (mkServiceStats (wrap64 (RequestsReceived st + 1))
                          (RequestsProcessed st) (Errors st) (AvgResponseTime st)
                          (startTime r))
                     = Some (mkServiceStats (wrap64 (RequestsReceived st + 1))
                               (RequestsProcessed st + 1) (Errors st)
                               (div64 (add64 (mul64 (AvgResponseTime st)
                                                (RequestsProcessed st))
                                         (responseTime r))
                                      (RequestsProcessed st + 1))
                               (startTime r))).
    { unfold count_processed. cbn [RequestsProcessed].
      rewrite (GoIntProofs.wrap64_small (RequestsProcessed st + 1))
        by (unfold in_int64, min_int64, max_int64; lia).
      replace (RequestsProcessed st + 1 - 1) with (RequestsProcessed st) by lia.
      rewrite (GoIntProofs.wrap64_small (RequestsProcessed st))
        by (unfold in_int64, min_int64, max_int64; lia).
      destruct (Z.eqb_spec (RequestsProcessed st + 1) 0); [lia | reflexivity]. }
    rewrite (updateStats_record _ _ _ _ _ (lookup_insert_eq _ _ _) Hcount).
    eexists _, _, _. split; [reflexivity |].
    rewrite insert_insert_eq, lookup_insert_eq. split; [reflexivity |].
    cbn [RequestsReceived RequestsProcessed Errors LastRequest].
    rewrite GoIntProofs.wrap64_small
      by (unfold in_int64, min_int64, max_int64; lia).
    repeat split. intros tag Hne. by rewrite lookup_insert_ne.
  - intros Hst. unfold handleRequest.
    rewrite (updateStats_missing _ _ _ Hst).
    pose proof (ParseProofs.parseRequest_no_error data clientAddr (uuid r) (parseTime r))
      as Hnil.
    destruct (parseRequest _ _ _ _) as [request [err |]]; [discriminate |].
    rewrite (updateStats_missing _ _ _ Hst). eauto.
Qed.


Lemma handleRequest_balanced stats service clientAddr data r stats' out :
  handleRequest stats service clientAddr data r = Some (stats', out) ->
  (forall tag st, stats !! tag = Some st ->
     RequestsProcessed st = RequestsReceived st) ->
  forall tag st, stats' !! tag = Some st ->
    RequestsProcessed st = RequestsReceived st.
Proof.
  unfold handleRequest, updateStats.
  destruct (stats !! Name service) as [st0 |] eqn:Hst.
  - cbn [count_received]. rewrite lookup_insert_eq.
    pose proof (ParseProofs.parseRequest_no_error data clientAddr (uuid r) (parseTime r))
      as Hnil.
    destruct (parseRequest _ _ _ _) as [request [err |]]; [discriminate |].
    unfold count_processed. cbn [RequestsProcessed].
    destruct (_ =? 0); [discriminate |].
    intros [= <- <-] Hbal tag st. rewrite insert_insert_eq.
    intros Hlook. apply lookup_insert_Some in Hlook as [[<- <-] | [Hne Hlook]].
    + cbn. by rewrite (Hbal _ _ Hst).
    + eauto.
  - rewrite Hst.
    destruct (parseRequest _ _ _ _) as [request [err |]].
    + unfold addError. rewrite Hst. discriminate.
    + by intros [= <- <-].
Qed.

Lemma addError_balanced stats tag stats' :
  addError stats tag = Some stats' ->
  (forall t st, stats !! t = Some st -> RequestsProcessed st = RequestsReceived st) ->
  forall t st, stats' !! t = Some st -> RequestsProcessed st = RequestsReceived st.
Proof.
  unfold addError. destruct (stats !! tag) as [st0 |] eqn:Hst; [| discriminate].
  intros [= <-] Hbal t st Hlook.
  apply lookup_insert_Some in Hlook as [[<- <-] | [Hne Hlook]]; cbn; eauto.
Qed.

Lemma step_balanced h e h' :
  step h e = Some h' ->
  (forall t st, stats h !! t = Some st -> RequestsProcessed st = RequestsReceived st) ->
  forall t st, stats h' !! t = Some st -> RequestsProcessed st = RequestsReceived st.
Proof.
  destruct e as [job | i | i r | i |]; simpl.
  - unfold receive. destruct (ThreadPool.Submit _ _) as [tp [err |]].
    + destruct (addError _ _) as [stats' |] eqn:Herr; [| discriminate].
      intros [= <-]. simpl. by eapply addError_balanced.
    + by intros [= <-].
  - destruct (ThreadPool.worker_receive _ _); [| discriminate]. by intros [= <-].
  - unfold complete.
    destruct (ThreadPool.workers _ !! i) as [[| job] |]; try discriminate.
    destruct (handleRequest _ _ _ _ _) as [[stats' out] |] eqn:Hreq; [| discriminate].
    destruct (ThreadPool.worker_finish _ _); [| discriminate].
    intros [= <-]. simpl. by eapply handleRequest_balanced.
  - destruct (ThreadPool.worker_timeout _ _); [| discriminate]. by intros [= <-].
  - by intros [= <-].
Qed.

(** X10.  In every state the host reaches, no record shows more
    requests processed than received: the two counters of a tag are
    only incremented by [handleRequest], the first before the second,
    and a dropped datagram touches neither. *)
Theorem processed_at_most_received
    (config : ThreadPoolConfig) (listening : list Service) (h : Host)
    (tag : ServiceType) (st : ServiceStats) :
  reachable config listening h ->
  stats h !! tag = Some st ->
  RequestsProcessed st <= RequestsReceived st.
Proof.
  intros (es & _ & Hrun) Hst.
  enough (Hbal : forall t x, stats h !! t = Some x ->
                   RequestsProcessed x = RequestsReceived x)
    by (rewrite (Hbal _ _ Hst); lia).
  clear tag st Hst.
  assert (Hstart : forall t x, stats (Start config listening) !! t = Some x ->
                     RequestsProcessed x = RequestsReceived x).
  { intros t x. unfold Start. simpl. intros Hx.
    apply elem_of_list_to_map_2 in Hx.
    apply list_elem_of_fmap in Hx as (s & [= _ ->] & _). reflexivity. }
  revert Hstart Hrun. generalize (Start config listening).
  induction es as [| e rest IH]; intros h0 Hbal; simpl.
  - by intros [= <-].
  - destruct (step h0 e) as [h1 |] eqn:Hstep; [| discriminate].
    apply IH. by eapply step_balanced.
Qed.

End Host.

Lemma handleRequest_counts_witness :
  exists stats' st' body,
    @handleRequest Reference.json_decoder {[ EchoService := ServiceStats_zero ]}
      echo_8081 "client" (Reference.envelope_text "1" "" "hi") readings
      = Some (stats', [BySendResponse "client" body])
    /\ stats' !! EchoService = Some st'
    /\ RequestsReceived st' = 1 /\ RequestsProcessed st' = 1
    /\ Errors st' = 0 /\ LastRequest st' = 100.
Proof.
  destruct (@handleRequest_counts Reference.json_decoder
              {[ EchoService := ServiceStats_zero ]} echo_8081 "client"
              (Reference.envelope_text "1" "" "hi") readings ServiceStats_zero)
    as [Hcounts _].
  destruct Hcounts as (stats' & st' & body & Hcall & Hst & Hr & Hp & He & Hl & _).
  - reflexivity.
  - unfold max_int64. simpl. lia.
  - unfold max_int64. simpl. lia.
  - exists stats', st', body. done.
Defined.


Lemma processed_at_most_received_witness :
  exists st, stats echo_host !! EchoService = Some st
             /\ RequestsProcessed st <= RequestsReceived st.
Proof.
  destruct (stats echo_host !! EchoService) as [st |] eqn:Hst;
    [| vm_compute in Hst; discriminate Hst].
  exists st. split; [reflexivity |].
  apply (@processed_at_most_received Reference.json_decoder
           ThreadPool.small_config [echo_8081] echo_host EchoService st);
    [| exact Hst].
  exists echo_exchange. split; [by repeat constructor | vm_compute; reflexivity].
Defined.

End HostProofs.

(** ** What the services reply *)

Module RepliesProofs.
Import Domain GoLib GoStrings Usecase Replies Scenario.

Section Services.
Context `{FloatText} `{JsonEncoder} `{TimeText}.

Lemma calc_reply_tagged now req :
  resp_ID (fst (CalcService_HandleRequest now req)) = req_ID req
  /\ resp_Service (fst (CalcService_HandleRequest now req)) = CalcService
  /\ resp_Timestamp (fst (CalcService_HandleRequest now req)) = now.
Proof.
  unfold CalcService_HandleRequest.
  destruct (length _ <? 3)%nat; [done |].
  destruct (ParseFloat _) as [a |]; [| done].
  destruct (ParseFloat _) as [b |]; [| done].
  cbv zeta.
  destruct (String.eqb _ "+"); [done |].
  destruct (String.eqb _ "-"); [done |].
  destruct (String.eqb _ "*"); [done |].
  destruct (String.eqb _ "/"); [| done].
  destruct (PrimFloat.eqb b 0); done.
Qed.

Lemma stats_commands_cases command :
  command ∈ stats_commands
  <-> command = "ALL" \/ command = "SERVICE" \/ command = "POOL" \/ command = "HELP".
Proof.
  unfold stats_commands. rewrite !elem_of_cons, elem_of_nil. tauto.
Qed.

Lemma marshalled_reply now json :
  resp_ID (fst (marshalled now json)) = ""
  /\ resp_Service (fst (marshalled now json)) = StatsService
  /\ snd (marshalled now json) = None
  /\ (resp_Error (fst (marshalled now json)) = None
      <-> snd (MarshalIndent json) = None).
Proof.
  unfold marshalled. destruct (MarshalIndent json) as [data [err |]]; simpl;
    repeat split; done.
Qed.

(** X11.  Every reply of the echo and calculator services carries the
    id of the request and the tag of the service.  A reply of the stats
    service carries the tag stats; it carries the id of the request only
    when the command is none of ALL, SERVICE, POOL, HELP, and the empty
    id for these four commands. *)
Theorem replies_carry_ids
    (stats : gmap ServiceType ServiceStats) (now : Time) (req : Request) :
  (resp_ID (fst (NewEchoService_HandleRequest now req)) = req_ID req
   /\ resp_Service (fst (NewEchoService_HandleRequest now req)) = EchoService)
  /\ (resp_ID (fst (CalcService_HandleRequest now req)) = req_ID req
      /\ resp_Service (fst (CalcService_HandleRequest now req)) = CalcService)
  /\ (resp_Service (fst (StatsService_HandleRequest stats now req)) = StatsService
      /\ resp_ID (fst (StatsService_HandleRequest stats now req))
         = if bool_decide (req_Command req ∈ stats_commands) then ""
           else req_ID req).
Proof.
  split; [done |]. split; [split; apply calc_reply_tagged |].
  unfold StatsService_HandleRequest.
  case_bool_decide as Hcommand.
  - apply stats_commands_cases in Hcommand as [-> | [-> | [-> | ->]]]; simpl.
    + split; apply marshalled_reply.
    + unfold handleServiceStats. destruct (stats !! _); [| done].
      split; apply marshalled_reply.
    + done.
    + done.
  - rewrite stats_commands_cases in Hcommand.
    destruct (String.eqb_spec (req_Command req) "ALL"); [tauto |].
    destruct (String.eqb_spec (req_Command req) "SERVICE"); [tauto |].
    destruct (String.eqb_spec (req_Command req) "POOL"); [tauto |].
    destruct (String.eqb_spec (req_Command req) "HELP"); [tauto |].
    done.
Qed.

(** X12.  The stats service never returns a Go-level error.  Its reply
    carries an error exactly in three cases: the command is none of ALL,
    SERVICE, POOL, HELP (compared as written, so a lower-case command is
    unknown); the command is SERVICE and the data names a tag without a
    record; the encoding of the statistics failed. *)
Theorem stats_reply_errors
    (stats : gmap ServiceType ServiceStats) (now : Time) (req : Request) :
  snd (StatsService_HandleRequest stats now req) = None
  /\ (resp_Error (fst (StatsService_HandleRequest stats now req)) <> None
      <-> req_Command req ∉ stats_commands
          \/ (req_Command req = "SERVICE" /\ stats !! req_Data req = None)
          \/ (req_Command req = "ALL"
              /\ snd (MarshalIndent (all_stats stats)) <> None)
          \/ (req_Command req = "SERVICE"
              /\ exists st, stats !! req_Data req = Some st
                 /\ snd (MarshalIndent (service_stats (req_Data req) st)) <> None)).
Proof.
  unfold StatsService_HandleRequest. rewrite stats_commands_cases.
  destruct (String.eqb_spec (req_Command req) "ALL") as [-> | Hall].
  { unfold handleAllStats. fold (all_stats stats).
    destruct (marshalled_reply now (all_stats stats)) as (_ & _ & Hgo & Herr).
    split; [exact Hgo |]. rewrite Herr. split.
    - intros Hfail. right. right. left. done.
    - intros [Hno | [[Heq _] | [[_ Hfail] | [Heq _]]]]; try done.
      exfalso. apply Hno. tauto. }
  destruct (String.eqb_spec (req_Command req) "SERVICE") as [-> | Hservice].
  { unfold handleServiceStats. cbv zeta. unfold ServiceType in *.
    destruct (stats !! req_Data req) as [st |] eqn:Hst.
    - fold (service_stats (req_Data req) st).
      destruct (marshalled_reply now (service_stats (req_Data req) st))
        as (_ & _ & Hgo & Herr).
      split; [exact Hgo |]. rewrite Herr. split.
      + intros Hfail. right. right. right. split; [done |]. eauto.
      + intros [Hno | [[_ Hnone] | [[Heq _] | [_ (st' & [= <-] & Hfail)]]]];
          try done.
        exfalso. apply Hno. tauto.
    - simpl. split; [done |]. split; [| done].
      intros _. right. left. done. }
  destruct (String.eqb_spec (req_Command req) "POOL") as [-> | Hpool].
  { simpl. split; [done |]. split; [done |].
    intros [Hno | [[Heq _] | [[Heq _] | [Heq _]]]]; try done.
    exfalso. apply Hno. tauto. }
  destruct (String.eqb_spec (req_Command req) "HELP") as [-> | Hhelp].
  { simpl. split; [done |]. split; [done |].
    intros [Hno | [[Heq _] | [[Heq _] | [Heq _]]]]; try done.
    exfalso. apply Hno. tauto. }
  simpl. split; [done |]. split; [| done]. intros _. left. tauto.
Qed.

(** X13.  The calculator reads the first three tokens of the data and
    nothing else: two requests with the same id whose data begin with
    the same three tokens get the same reply, whatever follows. *)
Theorem calc_ignores_further_tokens
    (now : Time) (req1 req2 : Request) (lhs op rhs : string) (rest1 rest2 : list string) :
  req_ID req1 = req_ID req2 ->
  Fields (req_Data req1) = lhs :: op :: rhs :: rest1 ->
  Fields (req_Data req2) = lhs :: op :: rhs :: rest2 ->
  CalcService_HandleRequest now req1 = CalcService_HandleRequest now req2.
Proof.
  intros Hid Hfirst Hsecond. unfold CalcService_HandleRequest.
  rewrite Hfirst, Hsecond, Hid. reflexivity.
Qed.

End Services.

Lemma calc_ignores_further_tokens_witness :
  @CalcService_HandleRequest Reference.float_text 0 (calc_request "7" "1 + 2 + 3")
  = @CalcService_HandleRequest Reference.float_text 0 (calc_request "7" "  1 + 2")
  /\ resp_Data (fst (@CalcService_HandleRequest Reference.float_text 0
                       (calc_request "7" "1 + 2 + 3"))) = "1.00 + 2.00 = 3.00".
Proof.
  split; [| vm_compute; reflexivity].
  apply (@calc_ignores_further_tokens Reference.float_text 0
           (calc_request "7" "1 + 2 + 3") (calc_request "7" "  1 + 2")
           "1" "+" "2" ["+"; "3"] []); reflexivity.
Defined.

End RepliesProofs.

(** ** The lab4 client: which reply reaches which request *)

Module UDPClientProofs.
Import Domain UDPClient.

Lemma route_other (responses : Pending) response requestID :
  resp_ID response <> requestID ->
  route responses response !! requestID = responses !! requestID.
Proof.
  intros Hne. unfold route.
  destruct (responses !! resp_ID response) as [other |]; [| done].
  destruct (length other <? 1)%nat; [| done]. by rewrite lookup_insert_ne.
Qed.

Lemma route_same (responses : Pending) response channel :
  responses !! resp_ID response = Some channel ->
  route responses response !! resp_ID response
  = Some (if (length channel <? 1)%nat then channel ++ [response] else channel).
Proof.
  intros Hchannel. unfold route. rewrite Hchannel.
  destruct (length channel <? 1)%nat; [by rewrite lookup_insert_eq | done].
Qed.

Lemma route_channel (responses : Pending) response requestID channel :
  responses !! requestID = Some channel ->
  (length channel <= 1)%nat ->
  route responses response !! requestID
  = Some (take 1 (channel ++ carrying requestID [response])).
Proof.
  intros Hchannel Hlen. unfold carrying. rewrite filter_cons, filter_nil.
  case_decide as Hid.
  - subst requestID. rewrite (route_same _ _ _ Hchannel).
    destruct channel as [| first [| second rest]]; simpl in *; [done | done | lia].
  - rewrite (route_other _ _ _ Hid), app_nil_r.
    rewrite Hchannel.
    destruct channel as [| first [| second rest]]; simpl in *; [done | done | lia].
Qed.

Lemma route_all_channel rs : forall responses requestID channel,
  responses !! requestID = Some channel ->
  (length channel <= 1)%nat ->
  route_all responses rs !! requestID
  = Some (take 1 (channel ++ carrying requestID rs)).
Proof.
  induction rs as [| r rest IH]; intros responses requestID channel Hchannel Hlen.
  - simpl. unfold carrying. rewrite filter_nil, app_nil_r, Hchannel.
    destruct channel as [| first [| second more]]; simpl in *; try lia; done.
  - unfold route_all. simpl. fold (route_all (route responses r) rest).
    rewrite (IH _ requestID _ (route_channel _ r _ _ Hchannel Hlen)).
    + f_equal.
      assert (Htake : forall l b : list Response,
                take 1 (take 1 l ++ b) = take 1 (l ++ b))
        by (intros [| x l] b; reflexivity).
      rewrite Htake, <- app_assoc. f_equal.
      unfold carrying. by rewrite <- filter_app.
    + rewrite length_take. lia.
Qed.

(** X14.  While a [SendRequest] waits on the channel registered under
    its request id, the listener puts on that channel the first response
    it decodes that carries this id, and nothing else: responses with
    another id and later responses with the same id are dropped.  If no
    response carries the id, the channel stays empty and the request
    times out. *)
Theorem first_matching_reply_wins
    (responses : Pending) (requestID : string) (rs : list Response) :
  responses !! requestID = Some [] ->
  route_all responses rs !! requestID = Some (take 1 (carrying requestID rs)).
Proof.
  intros Hwaiting.
  rewrite (route_all_channel rs responses requestID [] Hwaiting); [done |].
  simpl. lia.
Qed.

Lemma first_matching_reply_wins_witness :
  let stranger := mkResponse "" StatsService "pool" None 0 in
  let first := mkResponse "id-1" EchoService "ECHO: a" None 0 in
  let second := mkResponse "id-1" EchoService "ECHO: b" None 0 in
  route_all (register ∅ "id-1") [stranger; first; second] !! "id-1" = Some [first]
  /\ route_all (register ∅ "id-1") [stranger] !! "id-1" = Some [].
Proof.
  intros stranger first second. split.
  - apply (first_matching_reply_wins (register ∅ "id-1") "id-1"
             [stranger; first; second]). reflexivity.
  - apply (first_matching_reply_wins (register ∅ "id-1") "id-1" [stranger]).
    reflexivity.
Defined.

End UDPClientProofs.

(** ** lab3: descriptor sets *)

Module FdSetProofs.
Import GoInt Lab3Select.

Lemma shift_of_fd fd : (fd mod 2 ^ 64) mod 32 = fd mod 32.
Proof.
  apply Z.mod_mod_divide. exists (2 ^ 59). reflexivity.
Qed.

(** The bits of a mask: one bit below position 31, and the sign
    extension of bit 31. *)
Lemma mask_bits fd n :
  0 <= n ->
  Z.testbit (mask fd) n
  = if fd mod 32 =? 31 then 31 <=? n else n =? fd mod 32.
Proof.
  intros Hn. unfold mask. rewrite shift_of_fd.
  pose proof (Z.mod_pos_bound fd 32 ltac:(lia)) as Hs.
  rewrite Z.shiftl_1_l.
  destruct (Z.eqb_spec (fd mod 32) 31) as [-> | Hne].
  - change (wrap32 (2 ^ 31)) with (- 2 ^ 31).
    rewrite Z.bits_opp by lia.
    change (Z.pred (2 ^ 31)) with (Z.ones 31).
    rewrite Z.testbit_ones_nonneg by lia.
    destruct (Z.leb_spec 31 n), (Z.ltb_spec n 31); simpl; lia || reflexivity.
  - rewrite PoolAccountingProofs.wrap32_small.
    + rewrite Z.pow2_bits_eqb by lia. apply Z.eqb_sym.
    + split; [pose proof (Z.pow_pos_nonneg 2 (fd mod 32)); lia |].
      apply Z.pow_lt_mono_r; lia.
Qed.

Lemma mask_nonzero fd : mask fd <> 0.
Proof.
  intros Hzero.
  pose proof (Z.mod_pos_bound fd 32 ltac:(lia)) as Hs.
  assert (Hbit : Z.testbit (mask fd) (fd mod 32) = true).
  { rewrite mask_bits by lia.
    destruct (Z.eqb_spec (fd mod 32) 31) as [-> | _];
      [reflexivity | apply Z.eqb_refl]. }
  rewrite Hzero, Z.bits_0 in Hbit. discriminate.
Qed.

Lemma land_lor_mask word fd : Z.land (Z.lor word (mask fd)) (mask fd) = mask fd.
Proof.
  apply Z.bits_inj'. intros n Hn.
  rewrite Z.land_spec, Z.lor_spec.
  destruct (Z.testbit word n), (Z.testbit (mask fd) n); reflexivity.
Qed.

Lemma land_lor_other word fd fd' :
  fd mod 32 <> fd' mod 32 ->
  Z.land (Z.lor word (mask fd)) (mask fd') = Z.land word (mask fd').
Proof.
  intros Hne. apply Z.bits_inj'. intros n Hn.
  rewrite !Z.land_spec, Z.lor_spec, !mask_bits by lia.
  pose proof (Z.mod_pos_bound fd 32 ltac:(lia)).
  pose proof (Z.mod_pos_bound fd' 32 ltac:(lia)).
  destruct (Z.eqb_spec (fd mod 32) 31), (Z.eqb_spec (fd' mod 32) 31);
    try lia;
    repeat match goal with
           | |- context [?a <=? ?b] => destruct (Z.leb_spec a b)
           | |- context [?a =? ?b] => destruct (Z.eqb_spec a b)
           end;
    try lia; destruct (Z.testbit word n); reflexivity.
Qed.

(** A descriptor in range names a word of the set and a bit of it. *)
Lemma fd_position fd :
  0 <= fd ->
  Z.quot fd 32 = fd `div` 32 /\ fd = 32 * (fd `div` 32) + fd mod 32.
Proof.
  intros Hfd. split; [apply Z.quot_div_nonneg; lia |].
  apply Z.div_mod. lia.
Qed.

(** X15.  On a set of 32 words and descriptors from 0 to 1023: after
    [FDSet(fd)], [FDIsSet(fd)] is true, and [FDIsSet] of every other
    descriptor is what it was before. *)
Theorem FDSet_marks_one_descriptor (set : FdSet) (fd fd' : Z) :
  length set = 32%nat ->
  0 <= fd < 1024 -> 0 <= fd' < 1024 ->
  exists set',
    FDSet fd set = Some set'
    /\ length set' = 32%nat
    /\ FDIsSet fd set' = Some true
    /\ (fd' <> fd -> FDIsSet fd' set' = FDIsSet fd' set).
Proof.
  intros Hlen Hfd Hfd'.
  destruct (fd_position fd ltac:(lia)) as [Hq Hpos].
  destruct (fd_position fd' ltac:(lia)) as [Hq' Hpos'].
  assert (Hi : 0 <= fd `div` 32 < 32)
    by (split; [apply Z.div_pos; lia | apply Z.div_lt_upper_bound; lia]).
  assert (Hi' : 0 <= fd' `div` 32 < 32)
    by (split; [apply Z.div_pos; lia | apply Z.div_lt_upper_bound; lia]).
  destruct (lookup_lt_is_Some_2 set (Z.to_nat (fd `div` 32))) as [word Hword];
    [lia |].
  exists (<[Z.to_nat (fd `div` 32) := Z.lor word (mask fd)]> set).
  assert (Hset : FDSet fd set
                 = Some (<[Z.to_nat (fd `div` 32) := Z.lor word (mask fd)]> set)).
  { unfold FDSet. rewrite Hq, Hlen.
    destruct (Z.ltb_spec (fd `div` 32) 0); [lia |].
    destruct (Z.leb_spec (Z.of_nat 32) (fd `div` 32)); [lia |].
    cbn [orb]. by rewrite Hword. }
  split; [exact Hset |].
  split; [by rewrite length_insert |]. split.
  - unfold FDIsSet. rewrite Hq, length_insert, Hlen.
    destruct (Z.leb_spec (Z.of_nat 32) (fd `div` 32)); [lia |].
    destruct (Z.ltb_spec (fd `div` 32) 0); [lia |].
    rewrite list_lookup_insert_eq by lia.
    rewrite land_lor_mask.
    destruct (Z.eqb_spec (mask fd) 0) as [Hzero | _]; [| reflexivity].
    by apply mask_nonzero in Hzero.
  - intros Hne. unfold FDIsSet. rewrite Hq', length_insert, Hlen.
    destruct (Z.leb_spec (Z.of_nat 32) (fd' `div` 32)); [lia |].
    destruct (Z.ltb_spec (fd' `div` 32) 0); [lia |].
    destruct (decide (fd `div` 32 = fd' `div` 32)) as [Hsame | Hother].
    + rewrite <- Hsame, list_lookup_insert_eq by lia. rewrite Hword.
      rewrite land_lor_other by lia. reflexivity.
    + rewrite list_lookup_insert_ne by lia. reflexivity.
Qed.

Lemma FDSet_marks_one_descriptor_witness :
  exists set',
    FDSet 37 new_FdSet = Some set'
    /\ length set' = 32%nat
    /\ FDIsSet 37 set' = Some true
    /\ FDIsSet 5 set' = Some false.
Proof.
  destruct (FDSet_marks_one_descriptor new_FdSet 37 5) as (set' & Hset & Hlen & Hin & Hout);
    [reflexivity | lia | lia |].
  exists set'. split; [exact Hset |]. split; [exact Hlen |]. split; [exact Hin |].
  rewrite Hout by lia. reflexivity.
Defined.

(** X16.  The edges of the descriptor set of 32 words.  [FDSet] panics
    exactly for descriptors from 1024 up and from -32 down, while
    [FDIsSet] answers false from 1024 up.  A descriptor between -31 and
    -1 does not panic: it lands in word 0 and marks the same bit as the
    descriptor 32 higher, so -1 marks descriptor 31.  After [FDZero] no
    descriptor above -32 is set. *)
Theorem FdSet_edges (set : FdSet) (fd : Z) :
  length set = 32%nat ->
  (FDSet fd set = None <-> fd <= - 32 \/ 1024 <= fd)
  /\ (1024 <= fd -> FDIsSet fd set = Some false)
  /\ (- 32 < fd < 0 -> FDSet fd set = FDSet (fd + 32) set)
  /\ (- 32 < fd -> FDIsSet fd (FDZero set) = Some false).
Proof.
  intros Hlen.
  assert (Hquot : (fd <= - 32 -> Z.quot fd 32 < 0)
                  /\ (- 32 < fd < 32 -> Z.quot fd 32 = 0)
                  /\ (0 <= fd -> Z.quot fd 32 = fd `div` 32)).
  { split; [| split].
    - intros Hneg. pose proof (Z.quot_opp_l (- fd) 32 ltac:(lia)) as Hopp.
      rewrite Z.opp_involutive in Hopp. rewrite Hopp.
      rewrite Z.quot_div_nonneg by lia.
      assert (1 <= (- fd) `div` 32) by (apply Z.div_le_lower_bound; lia). lia.
    - intros Hsmall. apply Z.quot_small_iff; lia.
    - intros Hpos. apply Z.quot_div_nonneg; lia. }
  destruct Hquot as (Hlow & Hzero & Hdiv).
  split; [| split; [| split]].
  - unfold FDSet. rewrite Hlen. split.
    + destruct (Z.ltb_spec (Z.quot fd 32) 0) as [Hneg | Hnonneg]; simpl.
      * intros _. destruct (Z.le_gt_cases fd (- 32)) as [| Hgt]; [by left |].
        destruct (Z.lt_ge_cases fd 32) as [Hlt | Hge].
        { rewrite Hzero in Hneg by lia. lia. }
        { rewrite Hdiv in Hneg by lia.
          assert (0 <= fd `div` 32) by (apply Z.div_pos; lia). lia. }
      * destruct (Z.leb_spec (Z.of_nat 32) (Z.quot fd 32)) as [Hbig | Hin].
        { intros _. right.
          destruct (Z.lt_ge_cases fd 0) as [Hn | Hp].
          - destruct (Z.le_gt_cases fd (- 32)) as [Hl | Hg];
              [specialize (Hlow Hl); lia | rewrite Hzero in Hbig by lia; lia].
          - rewrite Hdiv in Hbig by lia.
            destruct (Z.lt_ge_cases fd 1024) as [Hlt |]; [| done].
            assert (fd `div` 32 < 32) by (apply Z.div_lt_upper_bound; lia). lia. }
        { destruct (lookup_lt_is_Some_2 set (Z.to_nat (Z.quot fd 32)))
            as [word ->]; [lia | discriminate]. }
    + intros [Hl | Hg].
      * specialize (Hlow Hl).
        destruct (Z.ltb_spec (Z.quot fd 32) 0); [reflexivity | lia].
      * rewrite Hdiv by lia.
        assert (32 <= fd `div` 32) by (apply Z.div_le_lower_bound; lia).
        destruct (Z.ltb_spec (fd `div` 32) 0); [reflexivity |].
        destruct (Z.leb_spec (Z.of_nat 32) (fd `div` 32)); [reflexivity | lia].
  - intros Hg. unfold FDIsSet. rewrite Hlen, Hdiv by lia.
    assert (32 <= fd `div` 32) by (apply Z.div_le_lower_bound; lia).
    destruct (Z.leb_spec (Z.of_nat 32) (fd `div` 32)); [reflexivity | lia].
  - intros Hneg. unfold FDSet.
    rewrite (Hzero ltac:(lia)).
    assert (Hq : Z.quot (fd + 32) 32 = 0) by (apply Z.quot_small_iff; lia).
    rewrite Hq.
    assert (Hmask : mask fd = mask (fd + 32)).
    { unfold mask. rewrite !shift_of_fd.
      replace (fd + 32) with (fd + 1 * 32) by lia. by rewrite Z.mod_add by lia. }
    by rewrite Hmask.
  - intros Hfd. unfold FDIsSet, FDZero. rewrite length_replicate, Hlen.
    destruct (Z.leb_spec (Z.of_nat 32) (Z.quot fd 32)) as [| Hin]; [reflexivity |].
    assert (Hnonneg : 0 <= Z.quot fd 32).
    { destruct (Z.lt_ge_cases fd 32) as [Hlt | Hge].
      - rewrite Hzero by lia. lia.
      - rewrite Hdiv by lia. apply Z.div_pos; lia. }
    destruct (Z.ltb_spec (Z.quot fd 32) 0); [lia |].
    rewrite lookup_replicate_2 by lia. reflexivity.
Qed.

Lemma FdSet_edges_witness :
  FDSet (- 1) new_FdSet = FDSet 31 new_FdSet
  /\ FDSet 1024 new_FdSet = None
  /\ FDIsSet 1024 new_FdSet = Some false
  /\ FDIsSet (- 1) (FDZero new_FdSet) = Some false.
Proof.
  destruct (FdSet_edges new_FdSet (- 1) eq_refl) as (_ & _ & Halias & Hzero).
  destruct (FdSet_edges new_FdSet 1024 eq_refl) as (Hpanic & Hfalse & _ & _).
  split; [apply Halias; lia |].
  split; [apply Hpanic; lia |].
  split; [apply Hfalse; lia |].
  apply Hzero. lia.
Defined.

End FdSetProofs.

(** ** lab3: the text of a command *)

Module CommandTextProofs.
Import Domain Lab3Select.

Lemma all_trimmed_app l r :
  all_trimmed (l +:+ r) = all_trimmed l && all_trimmed r.
Proof.
  induction l as [| c l IH]; simpl; [done |]. rewrite IH. by rewrite andb_assoc.
Qed.

Lemma drop_trailing_split s :
  exists r, s = drop_trailing s +:+ r /\ all_trimmed r = true.
Proof.
  induction s as [| c rest (r & Hrest & Hr)]; simpl; [by exists EmptyString |].
  destruct (drop_trailing rest) as [| d kept] eqn:Hkept.
  - change (rest = r) in Hrest. subst r.
    destruct (is_trimmed c) eqn:Hc.
    + exists (String c rest). split; [reflexivity |]. simpl. by rewrite Hc, Hr.
    + by exists rest.
  - exists r. split; [| exact Hr].
    change (String c rest = String c (String d kept +:+ r)). by rewrite <- Hrest.
Qed.

Lemma drop_trailing_final s c :
  final_byte (drop_trailing s) = Some c -> is_trimmed c = false.
Proof.
  induction s as [| b rest IH]; simpl; [done |].
  destruct (drop_trailing rest) as [| d kept] eqn:Hkept.
  - destruct (is_trimmed b) eqn:Hb; simpl; [done |]. by intros [= <-].
  - simpl. exact IH.
Qed.

Lemma drop_trailing_clean s :
  (forall c, final_byte s = Some c -> is_trimmed c = false) ->
  drop_trailing s = s.
Proof.
  induction s as [| b rest IH]; simpl; [done |].
  destruct rest as [| d rest'].
  - simpl. intros Hb. by rewrite (Hb b eq_refl).
  - intros Hfinal. rewrite IH by exact Hfinal. reflexivity.
Qed.

Lemma drop_trailing_all s : all_trimmed s = true -> drop_trailing s = EmptyString.
Proof.
  induction s as [| b rest IH]; simpl; [done |].
  intros [Hb Hrest]%andb_prop. by rewrite IH, Hb.
Qed.

Lemma drop_leading_split s :
  exists l, s = l +:+ drop_leading s /\ all_trimmed l = true.
Proof.
  induction s as [| c rest (l & Hrest & Hl)]; simpl; [by exists EmptyString |].
  destruct (is_trimmed c) eqn:Hc.
  - exists (String c l). split; [| simpl; by rewrite Hc, Hl].
    change (String c rest = String c (l +:+ drop_leading rest)).
    by rewrite <- Hrest.
  - by exists EmptyString.
Qed.

Lemma drop_leading_first s c :
  first_byte (drop_leading s) = Some c -> is_trimmed c = false.
Proof.
  induction s as [| b rest IH]; simpl; [done |].
  destruct (is_trimmed b) eqn:Hb; [exact IH |].
  unfold first_byte. simpl. by intros [= <-].
Qed.

Lemma drop_leading_final s :
  drop_leading s <> EmptyString -> final_byte (drop_leading s) = final_byte s.
Proof.
  induction s as [| b rest IH]; simpl; [done |].
  destruct (is_trimmed b); [| done].
  intros Hne. rewrite (IH Hne).
  destruct rest; [by simpl in Hne | reflexivity].
Qed.

Lemma drop_leading_clean s :
  (forall c, first_byte s = Some c -> is_trimmed c = false) -> drop_leading s = s.
Proof.
  destruct s as [| b rest]; simpl; [done |].
  intros Hfirst. by rewrite (Hfirst b eq_refl).
Qed.

Lemma trimString_bytes s c :
  first_byte (trimString s) = Some c \/ final_byte (trimString s) = Some c ->
  is_trimmed c = false.
Proof.
  unfold trimString. intros [Hfirst | Hfinal].
  - by eapply drop_leading_first.
  - destruct (decide (drop_leading (drop_trailing s) = EmptyString)) as [Hempty | Hne].
    + by rewrite Hempty in Hfinal.
    + rewrite (drop_leading_final _ Hne) in Hfinal. by eapply drop_trailing_final.
Qed.


(** X17.  [trimString] removes line feeds, carriage returns and spaces
    from both ends and nothing else: the string is its result between a
    prefix and a suffix made of these three bytes only, and the result
    neither begins nor ends with one of them.  Hence it is idempotent,
    and the result is empty exactly when the string holds nothing but
    these bytes. *)
Theorem trimString_trims_both_ends (s : string) :
  (exists l r, s = l +:+ trimString s +:+ r
               /\ all_trimmed l = true /\ all_trimmed r = true)
  /\ (forall c, first_byte (trimString s) = Some c
                \/ final_byte (trimString s) = Some c ->
                is_trimmed c = false)
  /\ trimString (trimString s) = trimString s
  /\ (trimString s = EmptyString <-> all_trimmed s = true).
Proof.
  assert (Hsplit : exists l r, s = l +:+ trimString s +:+ r
                               /\ all_trimmed l = true /\ all_trimmed r = true).
  { destruct (drop_trailing_split s) as (r & Hs & Hr).
    destruct (drop_leading_split (drop_trailing s)) as (l & Hl & Hlt).
    exists l, r. unfold trimString. split; [| done].
    rewrite Hs at 1. rewrite Hl at 1.
    clear. induction l as [| c l IH]; [done |].
    change (String c ((l +:+ drop_leading (drop_trailing s)) +:+ r)
            = String c (l +:+ drop_leading (drop_trailing s) +:+ r)).
    by rewrite IH. }
  split; [exact Hsplit |]. split; [apply trimString_bytes |]. split.
  - unfold trimString at 1.
    rewrite drop_trailing_clean
      by (intros c Hc; apply (trimString_bytes s); by right).
    apply drop_leading_clean. intros c Hc. apply (trimString_bytes s). by left.
  - split.
    + intros Hempty. destruct Hsplit as (l & r & Hs & Hl & Hr).
      rewrite Hs, Hempty, !all_trimmed_app, Hl, Hr. reflexivity.
    + intros Hall. unfold trimString. by rewrite drop_trailing_all.
Qed.



Lemma length_append (l r : string) :
  String.length (l +:+ r) = (String.length l + String.length r)%nat.
Proof.
  induction l as [| c l IH]; [done |].
  change (S (String.length (l +:+ r)) = S (String.length l + String.length r)).
  by rewrite IH.
Qed.

Lemma slice_is_prefix cmd data :
  String.substring 0 (String.length cmd) data = cmd
  <-> exists rest, data = cmd +:+ rest.
Proof.
  revert data. induction cmd as [| c cmd IH]; intros data.
  - split; [intros _; by exists data |]. intros _. by destruct data.
  - destruct data as [| d data]; simpl.
    + split; [done |]. intros [rest Hrest]. discriminate Hrest.
    + split.
      * intros [= -> Hsub]. apply IH in Hsub as [rest ->]. by exists rest.
      * intros [rest Hrest].
        change (String d data = String c (cmd +:+ rest)) in Hrest.
        injection Hrest as -> ->. f_equal. apply IH. by exists rest.
Qed.

Lemma interactive_among_prefix commands data :
  exists b, interactive_among commands data = Some b
    /\ (b = true <-> exists cmd rest, cmd ∈ commands /\ data = cmd +:+ rest).
Proof.
  induction commands as [| cmd others (b & Hb & Hiff)]; simpl.
  - exists false. split; [done |]. split; [done |].
    intros (cmd & rest & Hin & _). by apply elem_of_nil in Hin.
  - unfold slice_to. destruct (String.length cmd <=? String.length data)%nat eqn:Hlen.
    + destruct (String.eqb_spec (String.substring 0 (String.length cmd) data) cmd)
        as [Heq | Hne].
      * exists true. split; [done |]. split; [| done]. intros _.
        apply slice_is_prefix in Heq as [rest ->]. exists cmd, rest.
        split; [by left | done].
      * exists b. split; [done |]. rewrite Hiff. split.
        -- intros (c & rest & Hin & ->). exists c, rest. split; [by right | done].
        -- intros (c & rest & Hin & Hdata).
           apply elem_of_cons in Hin as [-> | Hin]; [| by exists c, rest].
           exfalso. apply Hne. apply slice_is_prefix. by exists rest.
    + exists b. split; [done |]. rewrite Hiff. split.
      * intros (c & rest & Hin & ->). exists c, rest. split; [by right | done].
      * intros (c & rest & Hin & Hdata).
        apply elem_of_cons in Hin as [-> | Hin]; [| by exists c, rest].
        exfalso. apply Nat.leb_gt in Hlen. rewrite Hdata, length_append in Hlen. lia.
Qed.

(** X19.  [isInteractiveCommand] never slices beyond the end of the
    data, so it returns for every input, and it answers true exactly
    when the data begins with one of the words ECHO, TIME, HELP and
    STATUS in capital letters, whatever follows the word. *)
Theorem isInteractiveCommand_is_prefix_test (data : string) :
  exists b, isInteractiveCommand data = Some b
    /\ (b = true
        <-> exists cmd rest,
              cmd ∈ ["ECHO"; "TIME"; "HELP"; "STATUS"] /\ data = cmd +:+ rest).
Proof. apply interactive_among_prefix. Qed.

End CommandTextProofs.

Module SessionTableProofs.
Import Domain GoInt Lab3Select.

Lemma handleNewConnection_sound sm now_id now_ping fd :
  sessions_sound sm -> sessions_sound (handleNewConnection sm now_id now_ping fd).1.
Proof.
  intros [Hsize Hsessions]. unfold handleNewConnection.
  destruct (MaxClients sm <=? Z.of_nat (size (clients sm))) eqn:Hfull;
    [by split |].
  destruct fd as [fd |]; [| by split].
  apply Z.leb_gt in Hfull. split; simpl.
  - rewrite map_size_insert. destruct (clients sm !! _); unfold id; lia.
  - intros clientID c [[<- <-] | [_ Hc]]%lookup_insert_Some; [| by apply Hsessions].
    simpl. split; [done |]. split; [done |].
    rewrite Lab3Proofs.calculateOptimalChunkSize_clamp.
    unfold Lab3.clamp, Lab3.MinChunkSize, Lab3.MaxChunkSize. lia.
Qed.

Lemma touch_sound sm clientID now : sessions_sound sm -> sessions_sound (touch sm clientID now).
Proof.
  intros [Hsize Hsessions]. split; simpl.
  - by rewrite <- size_dom, dom_alter_L, size_dom.
  - intros id c [(-> & old & Hold & ->) | [_ Hc]]%lookup_alter_Some;
      [| by apply Hsessions].
    simpl. by apply Hsessions.
Qed.

Lemma RemoveConnection_sound sm clientID :
  sessions_sound sm -> sessions_sound (RemoveConnection sm clientID).
Proof.
  intros [Hsize Hsessions]. split; simpl.
  - rewrite map_size_delete. destruct (clients sm !! clientID); unfold id; lia.
  - intros id c [_ Hc]%lookup_delete_Some. by apply Hsessions.
Qed.

Lemma checkPingTimeouts_over_sound copy sm now :
  sessions_sound sm -> sessions_sound (checkPingTimeouts_over copy sm now).
Proof.
  unfold checkPingTimeouts_over. revert sm.
  induction copy as [| entry copy IH]; intros sm Hsound; simpl; [done |].
  apply IH. destruct (expired sm now entry.2); [| done].
  by apply RemoveConnection_sound.
Qed.

Lemma checkPingTimeouts_over_config copy sm now :
  MaxClients (checkPingTimeouts_over copy sm now) = MaxClients sm
  /\ PingTimeout (checkPingTimeouts_over copy sm now) = PingTimeout sm.
Proof.
  unfold checkPingTimeouts_over. revert sm.
  induction copy as [| entry copy IH]; intros sm; simpl; [done |].
  destruct (IH (if expired sm now entry.2 then RemoveConnection sm entry.1 else sm))
    as [-> ->].
  by destruct (expired sm now entry.2).
Qed.

Lemma table_step_config sm e :
  MaxClients (table_step sm e) = MaxClients sm
  /\ PingTimeout (table_step sm e) = PingTimeout sm.
Proof.
  destruct e as [now_id now_ping fd | clientID now | clientID | now]; simpl;
    [| done | done | apply checkPingTimeouts_over_config].
  unfold handleNewConnection.
  destruct (MaxClients sm <=? _); [done |]. by destruct fd.
Qed.

Lemma table_step_sound sm e : sessions_sound sm -> sessions_sound (table_step sm e).
Proof.
  destruct e as [now_id now_ping fd | clientID now | clientID | now]; simpl.
  - apply handleNewConnection_sound.
  - apply touch_sound.
  - apply RemoveConnection_sound.
  - apply checkPingTimeouts_over_sound.
Qed.

(** X20.  Whatever the select loop does to the table of sessions, one
    call after the other (connections accepted, rejected or failed,
    reads, removals, sweeps), the table never holds more sessions than
    [MaxClients], and every session in it is filed under its own id, is
    active and has a chunk size between 512 and 8192; the configuration
    is never changed. *)
Theorem sessions_stay_sound (max_clients : Z) (ping_timeout : Duration)
    (es : list TableEvent) :
  0 <= max_clients ->
  let sm := table_run (new_table max_clients ping_timeout) es in
  MaxClients sm = max_clients /\ PingTimeout sm = ping_timeout
  /\ Z.of_nat (size (clients sm)) <= max_clients
  /\ forall clientID c, clients sm !! clientID = Some c ->
       cc_ID c = clientID /\ cc_IsActive c = true /\ 512 <= cc_ChunkSize c <= 8192.
Proof.
  intros Hmax sm.
  assert (Hinv : MaxClients sm = max_clients /\ PingTimeout sm = ping_timeout
                 /\ sessions_sound sm).
  { subst sm. unfold table_run.
    induction es as [| e es IH] using rev_ind.
    - simpl. split; [done |]. split; [done |]. split; simpl; [| done].
      rewrite map_size_empty. lia.
    - rewrite foldl_app. simpl. destruct IH as (Hm & Hp & Hsound).
      destruct (table_step_config (foldl table_step (new_table max_clients ping_timeout) es) e)
        as [-> ->].
      split; [done |]. split; [done |]. by apply table_step_sound. }
  destruct Hinv as (Hm & Hp & Hsize & Hsessions).
  split; [done |]. split; [done |]. split; [by rewrite <- Hm |].
  exact Hsessions.
Qed.

Lemma sessions_stay_sound_witness :
  let sm := table_run (new_table 2 (30 * Second)) table_trace in
  MaxClients sm = 2 /\ PingTimeout sm = 30 * Second
  /\ Z.of_nat (size (clients sm)) <= 2
  /\ forall clientID c, clients sm !! clientID = Some c ->
       cc_ID c = clientID /\ cc_IsActive c = true /\ 512 <= cc_ChunkSize c <= 8192.
Proof. apply (sessions_stay_sound 2 (30 * Second) table_trace). lia. Defined.

Lemma sweep_lookup copy sm now id c :
  clients (checkPingTimeouts_over copy sm now) !! id = Some c
  <-> clients sm !! id = Some c
      /\ forall c', (id, c') ∈ copy -> expired sm now c' = false.
Proof.
  unfold checkPingTimeouts_over. revert sm.
  induction copy as [| [k v] copy IH]; intros sm; simpl.
  - split; [| by intros [? _]]. intros Hc. split; [done |].
    intros c' Hin. by apply elem_of_nil in Hin.
  - rewrite IH. destruct (expired sm now v) eqn:Hv; simpl.
    + rewrite lookup_delete_Some. split.
      * intros [[Hne Hc] Hcopy]. split; [done |].
        intros c' [[= <- <-] | Hin]%elem_of_cons; [done |]. by apply Hcopy.
      * intros [Hc Hcopy]. split; [split; [| done] |].
        -- intros <-. specialize (Hcopy v). rewrite Hv in Hcopy.
           discriminate Hcopy. by left.
        -- intros c' Hin. apply Hcopy. by right.
    + split.
      * intros [Hc Hcopy]. split; [done |].
        intros c' [[= <- <-] | Hin]%elem_of_cons; [done |]. by apply Hcopy.
      * intros [Hc Hcopy]. split; [done |]. intros c' Hin. apply Hcopy. by right.
Qed.

(** X21.  [checkPingTimeouts] removes exactly the sessions whose last
    activity is older than the timeout, in whatever order the copy of
    the table is ranged over: a session is in the table afterwards iff
    it was there before and the time since its last activity is at most
    [PingTimeout]. *)
Theorem checkPingTimeouts_sweeps (sm : selectMultiplexer) (now : Time)
    (copy : list (string * ClientConnection)) :
  copy ≡ₚ map_to_list (clients sm) ->
  forall clientID c,
    clients (checkPingTimeouts_over copy sm now) !! clientID = Some c
    <-> clients sm !! clientID = Some c
        /\ Sub now (cc_LastPing c) <= PingTimeout sm.
Proof.
  intros Hcopy clientID c. rewrite sweep_lookup. split.
  - intros [Hc Hkept]. split; [done |].
    apply Z.ltb_ge. apply Hkept. rewrite Hcopy. by apply elem_of_map_to_list.
  - intros [Hc Hfresh]. split; [done |].
    intros c' Hin. rewrite Hcopy in Hin. apply elem_of_map_to_list in Hin.
    rewrite Hc in Hin. injection Hin as <-. by apply Z.ltb_ge.
Qed.

Lemma checkPingTimeouts_sweeps_witness :
  let sm := table_run (new_table 2 (30 * Second))
              [Accepted 1000 1000 (Some 7); Accepted 2000 2000 (Some 8);
               Readable "client_2000" (5000 + Second)] in
  let now := 1000 + 31 * Second in
  clients (checkPingTimeouts sm now) !! "client_2000"
  = Some (mkClient "client_2000" (5000 + Second) true 8192 8).
Proof.
  intros sm now.
  apply (checkPingTimeouts_sweeps sm now (map_to_list (clients sm)));
    [reflexivity |].
  split; [vm_compute; reflexivity | vm_compute; discriminate].
Defined.

End SessionTableProofs.
